(** * CollecTF Selenium downloader: checkpointing, discovery and artifact naming

    A shallow embedding of [download_tf_family_psfms.py] (class
    [CollecTFSeleniumDownloader]) and the properties of its progress store,
    its discovery filters, its per-item state machine and its artifact
    naming.

    Conventions of the embedding.
    - A Python [str] is a [string]; each [ascii] is read as the Unicode code
      point of the same number (0..255), and the character classes of [re]
      and [str] ([\w], [\s], [\d], [strip], [lower]) are the Unicode ones
      restricted to that range.
    - What [json.load] returns is a [value]: a [dict] is the list of its
      items in insertion order; a [set] is a [gset]. The [details] a caller
      hands to the recorder are a record over a [gmap].
    - [try: ... except Exception: ...] is [try_except] in the monad [exc];
      only subclasses of [Exception] are modelled.
    - Logging and [time.sleep] have no effect on control flow and are left
      out; clock readings ([time.time()]) are integers supplied by the
      environment.
    - A progress file that parses holds any JSON value; testing a
      checkpoint file for existence, reading it and writing it can raise. *)

From stdpp Require Import gmap strings list fin_maps.
From Stdlib Require Import ZArith Ascii.
From Stdlib Require DecimalString.

Local Open Scope string_scope.
Local Open Scope list_scope.

(** ** Exceptions *)

Inductive exn : Set :=
  | ZeroDivisionError
  | OSError
  | UnicodeError
  | JSONDecodeError
  | TypeError
  | AttributeError
  | KeyError
  | ValueError
  | NoSuchElementException
  | WebDriverException.

Inductive exc (A : Type) : Type :=
  | Ok (a : A)
  | Raise (e : exn).
Arguments Ok {A} a.
Arguments Raise {A} e.

#[export] Instance exc_ret : MRet exc := @Ok.
#[export] Instance exc_bind : MBind exc := λ A B f m,
  match m with Ok a => f a | Raise e => Raise e end.

(** [try: m except Exception as e: h e] *)
Definition try_except {A} (m : exc A) (h : exn → exc A) : exc A :=
  match m with Ok a => Ok a | Raise e => h e end.

(** ** Strings *)

Module Str.

Definition code (c : ascii) : N := N_of_ascii c.

Definition in_range (lo hi : N) (c : ascii) : bool :=
  ((lo <=? code c) && (code c <=? hi))%N.

Definition is_upper_az (c : ascii) : bool := in_range 65 90 c.
Definition is_lower_az (c : ascii) : bool := in_range 97 122 c.
Definition is_letter_az (c : ascii) : bool := is_upper_az c || is_lower_az c.

(** [\d] and [str.isdecimal]: below 256 only the ASCII digits. *)
Definition is_decimal (c : ascii) : bool := in_range 48 57 c.

(** [\s] and the characters removed by [str.strip()]. *)
Definition is_space (c : ascii) : bool :=
  in_range 9 13 c || in_range 28 32 c || (code c =? 133)%N || (code c =? 160)%N.

(** Unicode alphanumerics below 256 (letters, digits and numerics). *)
Definition is_alnum (c : ascii) : bool :=
  is_letter_az c || is_decimal c
  || (code c =? 170)%N || (code c =? 178)%N || (code c =? 179)%N
  || (code c =? 181)%N || (code c =? 185)%N || (code c =? 186)%N
  || in_range 188 190 c
  || in_range 192 214 c || in_range 216 246 c || in_range 248 255 c.

(** [\w] *)
Definition is_word (c : ascii) : bool := is_alnum c || (code c =? 95)%N.

(** [str.lower()] on one character. *)
Definition lower_char (c : ascii) : ascii :=
  if is_upper_az c || (in_range 192 222 c && negb (code c =? 215)%N)
  then ascii_of_N (code c + 32) else c.

Fixpoint map (f : ascii → ascii) (s : string) : string :=
  match s with
  | EmptyString => EmptyString
  | String c s' => String (f c) (map f s')
  end.

Definition lower (s : string) : string := map lower_char s.

Fixpoint forallb (p : ascii → bool) (s : string) : bool :=
  match s with
  | EmptyString => true
  | String c s' => p c && forallb p s'
  end.

Fixpoint lstrip (s : string) : string :=
  match s with
  | EmptyString => EmptyString
  | String c s' => if is_space c then lstrip s' else s
  end.

Fixpoint rstrip (s : string) : string :=
  match s with
  | EmptyString => EmptyString
  | String c s' =>
      match rstrip s' with
      | EmptyString => if is_space c then EmptyString else String c EmptyString
      | r => String c r
      end
  end.

Definition strip (s : string) : string := rstrip (lstrip s).

(** [needle in hay] *)
Fixpoint contains (needle hay : string) : bool :=
  String.prefix needle hay ||
  match hay with
  | EmptyString => false
  | String _ hay' => contains needle hay'
  end.

(** [s.replace(" ", "_")] *)
Definition replace_space (s : string) : string :=
  map (λ c, if (code c =? 32)%N then "_"%char else c) s.

(** Python truthiness of a string. *)
Definition nonempty (s : string) : bool :=
  match s with EmptyString => false | _ => true end.

End Str.

(** ** The persisted progress record *)

(** Values of the free-form [details] dictionaries. *)
Inductive jval : Set :=
  | JBool (b : bool)
  | JStr (s : string).

#[export] Instance jval_eq_dec : EqDecision jval.
Proof. solve_decision. Defined.

(** A [details] dictionary: the key ["tf_family"], a string at every call
    site, and the other keys. *)
Record details : Set := Details {
  d_tf_family : option string;
  d_fields : gmap string jval
}.

#[export] Instance details_eq_dec : EqDecision details.
Proof. solve_decision. Defined.

Definition no_details : details := Details None ∅.

(** Python truthiness of a dictionary: non-empty. *)
Definition details_truthy (d : details) : bool :=
  bool_decide (d ≠ no_details).

(** [details or {}] *)
Definition details_or_empty (d : option details) : details :=
  match d with
  | Some d => if details_truthy d then d else no_details
  | None => no_details
  end.

(** What [json.load] returns, and what [json.dump] is given: the Python
    image of a JSON value. A [dict] is the list of its items in insertion
    order. Of a number the program only ever tests whether it is zero, so
    integers stand for all numbers. *)
#[warnings="-register-all"]
Inductive value : Set :=
  | PNone
  | PBool (b : bool)
  | PNum (n : Z)
  | PStr (s : string)
  | PList (items : list value)
  | PDict (fields : list (string * value)).

(** The operators and methods of Python the program applies to such
    values, with the exceptions they raise on a value of another type. *)
Module Py.

Fixpoint dict_get {A} (k : string) (fields : list (string * A)) : option A :=
  match fields with
  | [] => None
  | (k', v) :: fields => if decide (k' = k) then Some v else dict_get k fields
  end.

(** A key that is present keeps its place; a new key goes last. *)
Fixpoint dict_set {A} (k : string) (v : A) (fields : list (string * A))
  : list (string * A) :=
  match fields with
  | [] => [(k, v)]
  | (k', v') :: fields =>
      if decide (k' = k) then (k, v) :: fields else (k', v') :: dict_set k v fields
  end.

(** [x == s] for a string [s] *)
Definition eq_str (x : value) (s : string) : bool :=
  match x with PStr s' => bool_decide (s' = s) | _ => false end.

(** [bool(x)] *)
Definition truthy (x : value) : bool :=
  match x with
  | PNone => false
  | PBool b => b
  | PNum n => negb (n =? 0)%Z
  | PStr s => Str.nonempty s
  | PList items => match items with [] => false | _ => true end
  | PDict fields => match fields with [] => false | _ => true end
  end.

(** [k in x] for a string [k]: a key of a dictionary, an element of a
    list, a substring of a string. *)
Definition contains (k : string) (x : value) : exc bool :=
  match x with
  | PDict fields => Ok (bool_decide (is_Some (dict_get k fields)))
  | PList items => Ok (existsb (λ item, eq_str item k) items)
  | PStr s => Ok (Str.contains k s)
  | PNone | PBool _ | PNum _ => Raise TypeError
  end.

(** [x[k]] for a string [k] *)
Definition getitem (x : value) (k : string) : exc value :=
  match x with
  | PDict fields =>
      match dict_get k fields with Some v => Ok v | None => Raise KeyError end
  | _ => Raise TypeError
  end.

(** [x[k] = v] for a string [k]; the result is [x] afterwards. *)
Definition setitem (x : value) (k : string) (v : value) : exc value :=
  match x with
  | PDict fields => Ok (PDict (dict_set k v fields))
  | _ => Raise TypeError
  end.

(** [x.get(k, default)] *)
Definition get (x : value) (k : string) (default : value) : exc value :=
  match x with
  | PDict fields =>
      Ok (match dict_get k fields with Some v => v | None => default end)
  | _ => Raise AttributeError
  end.

(** [x.items()] *)
Definition items (x : value) : exc (list (string * value)) :=
  match x with PDict fields => Ok fields | _ => Raise AttributeError end.

(** [x.values()] *)
Definition values (x : value) : exc (list value) :=
  match x with PDict fields => Ok fields.*2 | _ => Raise AttributeError end.

(** [len(x)] *)
Definition len (x : value) : exc nat :=
  match x with
  | PDict fields => Ok (length fields)
  | PList items => Ok (length items)
  | PStr s => Ok (String.length s)
  | PNone | PBool _ | PNum _ => Raise TypeError
  end.

End Py.

Definition value_of_jval (v : jval) : value :=
  match v with JBool b => PBool b | JStr s => PStr s end.

(** The dictionary a [details] record stands for; at every call site the
    key ["tf_family"] comes last. *)
Definition value_of_details (d : details) : value :=
  let fields := prod_map id value_of_jval <$> map_to_list (d_fields d) in
  PDict (match d_tf_family d with
         | Some tf_family => Py.dict_set "tf_family" (PStr tf_family) fields
         | None => fields
         end).

(** A backing file: missing; present, with what reading (and parsing) it
    gives; or at a path that cannot be examined, so that [path.exists()]
    itself raises. *)
Inductive file (A : Type) : Type :=
  | Absent
  | Present (content : exc A)
  | Unreachable (e : exn).
Arguments Absent {A}.
Arguments Present {A} content.
Arguments Unreachable {A} e.

(** [path.exists()] *)
Definition exists_ {A} (f : file A) : exc bool :=
  match f with
  | Absent => Ok false
  | Present _ => Ok true
  | Unreachable e => Raise e
  end.

(** [with open(path) as f: read(f)] *)
Definition read_file {A} (f : file A) : exc A :=
  match f with
  | Absent => Raise OSError
  | Present r => r
  | Unreachable e => Raise e
  end.

(** [with open(path, "w") as f: json.dump(d, f)]: the file afterwards, given
    how the write went. A write that raises leaves the file as it was when
    it could not be opened, and unparseable ([torn]) when it was truncated
    on opening and then not written in full. *)
Definition write_file {A} (f : file A) (d : A) (answer : exc unit) (torn : bool)
  : file A :=
  match answer with
  | Ok _ => Present (Ok d)
  | Raise _ => if torn then Present (Raise JSONDecodeError) else f
  end.

(** ** Work items and what is written about them *)

(** An entry of [view_links], as built by [process_tf_species_page]. *)
Record view_link : Set := ViewLink {
  vl_tf_name : string;
  vl_tf_family : string;
  vl_tf_id : N;
  vl_species_name : string;
  vl_species_id : N;
  vl_href : string
}.

(** An entry of [family_results]. *)
Record family_result : Set := FamilyResult {
  fr_tf_name : string;
  fr_species_name : string;
  fr_status : string
}.

(** The metadata sidecar of an artifact. *)
Record metadata : Set := Metadata {
  m_tf_name : string;
  m_tf_family : string;
  m_tf_id : N;
  m_species_name : string;
  m_species_id : N;
  m_filename : string;
  m_download_timestamp : Z;
  m_content_length : nat;
  m_method : string;
  m_url : string
}.

Inductive directory : Set := matrices_dir | metadata_dir.

Inductive file_content : Set :=
  | Text (s : string)
  | Json (m : metadata).

(** ** Programs over the browser, the clock and the files

    Every call the code makes on the outside world is an operation; a
    program is a tree of operations whose continuations receive either the
    answer or the exception the call raised. *)

(** A [WebElement] handle. *)
Definition elem : Set := N.

Inductive by_ : Set := LINK_TEXT | PARTIAL_LINK_TEXT | TAG_NAME | XPATH.

Inductive op : Type → Type :=
  (* self.driver *)
  | DriverGet (url : string) : op unit
  | DriverBack : op unit
  | PageSource : op string
  | CurrentUrl : op string
  | FindElement (b : by_) (value : string) : op elem
  | FindElements (b : by_) (value : string) : op (list elem)
  | ExecuteScript (script : string) (arg : elem) : op unit
  (* a WebElement *)
  | ElemFindElement (e : elem) (b : by_) (value : string) : op elem
  | ElemFindElements (e : elem) (b : by_) (value : string) : op (list elem)
  | ElemText (e : elem) : op string
  | ElemTagName (e : elem) : op string
  | ElemGetAttribute (e : elem) (name : string) : op (option string)
  | ElemClick (e : elem) : op unit
  (* the download directory; [WaitForDownload] is the method
     [wait_for_download()], which polls the directory until a complete file
     is there or the timeout has passed *)
  | GlobDownloads : op (list string)
  | WaitForDownload : op (option string)
  | ReadFile (path : string) : op string
  | Unlink (path : string) : op unit
  (* the output directories *)
  | WriteFile (d : directory) (filename : string) (content : file_content) : op unit
  (* the progress directory *)
  | CompletedFileExists : op bool
  | ReadCompletedFile : op (list string)
  | ProgressFileExists : op bool
  | ReadProgressFile : op value
  | WriteProgressFile (progress_data : value) : op unit
  (* the method [log_tf_family_results], which appends to the family log *)
  | LogTfFamilyResults (tf_family : string) (results : list family_result) : op unit
  (* time.time() *)
  | Time : op Z.

Inductive prog (A : Type) : Type :=
  | Ret (a : A)
  | Throw (e : exn)
  | Do {X : Type} (c : op X) (k : exc X → prog A).
Arguments Ret {A} a.
Arguments Throw {A} e.
Arguments Do {A X} c k.

Fixpoint bind {A B} (p : prog A) (f : A → prog B) : prog B :=
  match p with
  | Ret a => f a
  | Throw e => Throw e
  | Do c k => Do c (λ r, bind (k r) f)
  end.

#[export] Instance prog_ret : MRet prog := @Ret.
#[export] Instance prog_bind : MBind prog := λ A B f p, bind p f.

(** A call: its answer, or its exception raised here. *)
Definition call {X} (c : op X) : prog X :=
  Do c (λ r, match r with Ok x => Ret x | Raise e => Throw e end).

(** [try: p except Exception as e: h e] *)
Fixpoint try_catch {A} (p : prog A) (h : exn → prog A) : prog A :=
  match p with
  | Ret a => Ret a
  | Throw e => h e
  | Do c k => Do c (λ r, try_catch (k r) h)
  end.

(** A computation that performs no operation. *)
Definition lift {A} (m : exc A) : prog A :=
  match m with Ok a => Ret a | Raise e => Throw e end.

(** [try: p except NoSuchElementException: h] *)
Definition except_no_such {A} (p : prog A) (h : prog A) : prog A :=
  try_catch p (λ e, match e with NoSuchElementException => h | _ => Throw e end).

(** An operation performed, whatever its answer type. *)
Record event : Type := Ev { ev_type : Type; ev_op : op ev_type }.
Arguments Ev {ev_type} ev_op.

(** The world: the two checkpoint files and the operations performed so
    far, oldest first. *)
Record world : Type := World {
  w_completed : file (list string);
  w_progress : file value;
  w_trace : list event
}.

(** The part of the world the program does not control: the answers of the
    browser and of the file system to each operation, given what happened
    before, the clock, and whether a failed write of the progress file has
    torn it. *)
Record env : Type := Env {
  env_answer : ∀ X, list event → op X → exc X;
  env_clock : list event → Z;
  env_torn : list event → bool
}.

(** One operation. The checkpoint files are tested and read as the world
    has them; writing the progress file goes as the file system answers;
    the clock and the family log (which swallows its own exceptions) never
    raise. *)
Definition perform {X} (E : env) (c : op X) (w : world) : world * exc X :=
  let tr := w_trace w in
  let w1 := World (w_completed w) (w_progress w) (tr ++ [Ev c]) in
  match c in op X return world * exc X with
  | CompletedFileExists => (w1, exists_ (w_completed w))
  | ReadCompletedFile => (w1, read_file (w_completed w))
  | ProgressFileExists => (w1, exists_ (w_progress w))
  | ReadProgressFile => (w1, read_file (w_progress w))
  | WriteProgressFile d =>
      let answer := env_answer E _ tr (WriteProgressFile d) in
      (World (w_completed w)
             (write_file (w_progress w) d answer (env_torn E tr))
             (tr ++ [Ev (WriteProgressFile d)]),
       answer)
  | LogTfFamilyResults _ _ => (w1, Ok ())
  | Time => (w1, Ok (env_clock E tr))
  | c => (w1, env_answer E _ tr c)
  end.

Fixpoint run {A} (E : env) (p : prog A) (w : world) : world * exc A :=
  match p with
  | Ret a => (w, Ok a)
  | Throw e => (w, Raise e)
  | Do c k => let '(w', r) := perform E c w in run E (k r) w'
  end.

(** ** [load_progress] *)

(** [set(line.strip() for line in f if line.strip())] *)
Definition ledger_names (lines : list string) : gset string :=
  list_to_set (Str.strip <$> filter (λ line, Str.nonempty (Str.strip line)) lines).

(** Both tests for existence are outside the [try] blocks. In the second
    block the assignment precedes the logging of [len(progress_data)], so a
    value without a length is kept all the same. *)
Definition load_progress : prog (gset string * value) :=
  let completed_tfs : gset string := ∅ in
  let progress_data : value := PDict [] in
  (* Load completed TF families *)
  present ← call CompletedFileExists;
  completed_tfs ←
    (if present : bool then
       try_catch (lines ← call ReadCompletedFile; Ret (ledger_names lines))
                 (λ _, Ret completed_tfs)
     else Ret completed_tfs);
  (* Load detailed progress data *)
  present ← call ProgressFileExists;
  progress_data ←
    (if present : bool then
       try_catch (call ReadProgressFile) (λ _, Ret progress_data)
     else Ret progress_data);
  Ret (completed_tfs, progress_data).

(** ** [save_motif_progress] *)

(** [f"{tf_name}_{species_name}".replace(" ", "_")] *)
Definition motif_key (tf_name species_name : string) : string :=
  Str.replace_space (tf_name +:+ "_" +:+ species_name).

(** [details.get("tf_family", tf_name) if details else tf_name] *)
Definition owning_family (tf_name : string) (d : option details) : string :=
  match d with
  | Some d => if details_truthy d then default tf_name (d_tf_family d) else tf_name
  | None => tf_name
  end.

(** The entry of a family first seen. *)
Definition new_family_entry (now : Z) : value :=
  PDict [("status", PStr "in_progress");
         ("timestamp", PNum now);
         ("details", PDict [("motif_reports", PDict [])])].

(** The record of a work item. *)
Definition new_report (tf_name species_name status : string) (now : Z)
    (d : option details) : value :=
  PDict [("tf_name", PStr tf_name);
         ("species_name", PStr species_name);
         ("status", PStr status);
         ("timestamp", PNum now);
         ("details", value_of_details (details_or_empty d))].

(** [all(report["status"] == "completed" for report in reports)], which
    stops at the first report that is not completed. *)
Fixpoint all_completed (reports : list value) : exc bool :=
  match reports with
  | [] => Ok true
  | report :: reports =>
      status ← Py.getitem report "status";
      if Py.eq_str status "completed" then all_completed reports else Ok false
  end.

(** [progress_data[tf_family]["details"]] *)
Definition family_details (progress_data : value) (tf_family : string) : exc value :=
  entry ← Py.getitem progress_data tf_family;
  Py.getitem entry "details".

(** [progress_data[tf_family]["details"]["motif_reports"]] *)
Definition family_motif_reports (progress_data : value) (tf_family : string)
  : exc value :=
  details ← family_details progress_data tf_family;
  Py.getitem details "motif_reports".

(** [progress_data[tf_family]["details"]["motif_reports"] = motif_reports];
    the dictionaries are updated in place, so [progress_data] afterwards is
    rebuilt along the path. *)
Definition set_family_motif_reports (progress_data : value) (tf_family : string)
    (motif_reports : value) : exc value :=
  entry ← Py.getitem progress_data tf_family;
  details ← Py.getitem entry "details";
  details ← Py.setitem details "motif_reports" motif_reports;
  entry ← Py.setitem entry "details" details;
  Py.setitem progress_data tf_family entry.

(** [progress_data[tf_family]["status"] = status] *)
Definition set_family_status (progress_data : value) (tf_family status : string)
  : exc value :=
  entry ← Py.getitem progress_data tf_family;
  entry ← Py.setitem entry "status" (PStr status);
  Py.setitem progress_data tf_family entry.

(** The block "Load existing progress". *)
Definition load_existing_progress : prog value :=
  present ← call ProgressFileExists;
  if present : bool then
    try_catch (call ReadProgressFile) (λ _, Ret (PDict [])) (* except Exception: pass *)
  else Ret (PDict []).

(** The block "Initialize TF family entry if it doesn't exist"; the entry,
    with its clock reading, is built before it is assigned. *)
Definition init_family (tf_family : string) (progress_data : value) : prog value :=
  present ← lift (Py.contains tf_family progress_data);
  if present : bool then Ret progress_data
  else
    now ← call Time;
    lift (Py.setitem progress_data tf_family (new_family_entry now)).

(** The block "Ensure motif_reports exists". *)
Definition ensure_motif_reports (tf_family : string) (progress_data : value)
  : exc value :=
  details ← family_details progress_data tf_family;
  present ← Py.contains "motif_reports" details;
  if present : bool then Ok progress_data
  else set_family_motif_reports progress_data tf_family (PDict []).

(** The block "Update motif report progress", the record being built
    already. *)
Definition update_motif_report (tf_family motif_key : string) (report : value)
    (progress_data : value) : exc value :=
  motif_reports ← family_motif_reports progress_data tf_family;
  motif_reports ← Py.setitem motif_reports motif_key report;
  set_family_motif_reports progress_data tf_family motif_reports.

(** The block "Update TF family status if all motif reports are
    completed". *)
Definition update_family_status (tf_family : string) (progress_data : value)
  : exc value :=
  motif_reports ← family_motif_reports progress_data tf_family;
  reports ← Py.values motif_reports;
  done ← all_completed reports;
  if done : bool then set_family_status progress_data tf_family "completed"
  else Ok progress_data.

Definition save_motif_progress (tf_name species_name status : string)
    (d : option details) : prog unit :=
  try_catch
    (progress_data ← load_existing_progress;
     let motif_key := motif_key tf_name species_name in
     let tf_family := owning_family tf_name d in
     progress_data ← init_family tf_family progress_data;
     progress_data ← lift (ensure_motif_reports tf_family progress_data);
     now ← call Time;
     let report := new_report tf_name species_name status now d in
     progress_data ← lift (update_motif_report tf_family motif_key report progress_data);
     progress_data ← lift (update_family_status tf_family progress_data);
     (* Save progress file *)
     call (WriteProgressFile progress_data))
    (λ _, Ret ()).

(** ** Remaining work: [get_resume_summary] *)

(** [a / b] on integers raises on a zero divisor; the quotient itself is
    only logged. *)
Definition true_div (a b : nat) : exc unit :=
  if decide (b = 0) then Raise ZeroDivisionError else Ok ().

(** The list comprehension of the first line of [get_resume_summary]. *)
Definition remaining (completed_tfs : gset string) (all_tf_names : list string)
  : list string :=
  filter (λ tf, tf ∉ completed_tfs) all_tf_names.

(** [if completed_tfs or progress_data], with [progress_data=None] as the
    default. *)
Definition has_history (completed_tfs : gset string)
    (progress_data : option value) : bool :=
  bool_decide (completed_tfs ≠ ∅) ||
  match progress_data with
  | Some d => Py.truthy d
  | None => false
  end.

(** [sum(1 for report in reports if report["status"] == "completed")] *)
Fixpoint count_completed (reports : list value) : exc nat :=
  match reports with
  | [] => Ok 0%nat
  | report :: reports =>
      status ← Py.getitem report "status";
      n ← count_completed reports;
      Ok (if Py.eq_str status "completed" then S n else n)
  end.

(** [total_motif_reports], [completed_motif_reports] and, for each entry
    of [in_progress_tfs], the name and the two counts it is formatted
    from. *)
Definition tallies : Set := (nat * nat * list (string * nat * nat))%type.

(** One turn of the loop over [progress_data.items()]. *)
Definition tally_family (acc : tallies) (item : string * value) : exc tallies :=
  let '(total_motif_reports, completed_motif_reports, in_progress_tfs) := acc in
  let '(tf_name, tf_data) := item in
  details ← Py.get tf_data "details" (PDict []);
  present ← Py.contains "motif_reports" details;
  if present : bool then
    details ← Py.getitem tf_data "details";
    motif_reports ← Py.getitem details "motif_reports";
    n ← Py.len motif_reports;
    reports ← Py.values motif_reports;
    completed_count ← count_completed reports;
    status ← Py.getitem tf_data "status";
    Ok (total_motif_reports + n, completed_motif_reports + completed_count,
        if Py.eq_str status "in_progress"
        then in_progress_tfs ++ [(tf_name, completed_count, n)]
        else in_progress_tfs)%nat
  else Ok acc.

Fixpoint tally_families (acc : tallies) (items : list (string * value))
  : exc tallies :=
  match items with
  | [] => Ok acc
  | item :: items => acc ← tally_family acc item; tally_families acc items
  end.

(** The block "Show detailed motif report progress"; the tallies are only
    logged. *)
Definition show_motif_progress (progress_data : option value) : exc unit :=
  match progress_data with
  | Some progress_data =>
      if Py.truthy progress_data then
        items ← Py.items progress_data;
        _ ← tally_families (0, 0, [])%nat items;
        Ok ()
      else Ok ()
  | None => Ok ()
  end.

(** Of the logging block, the statements that can change the outcome are
    the division and the tallies over [progress_data]. *)
Definition get_resume_summary (completed_tfs : gset string)
    (all_tf_names : list string) (progress_data : option value)
  : exc (list string) :=
  let remaining := remaining completed_tfs all_tf_names in
  if has_history completed_tfs progress_data then
    (* progress_pct = len(completed_tfs) / len(all_tf_names) * 100 *)
    _ ← true_div (size completed_tfs) (length all_tf_names);
    _ ← show_motif_progress progress_data;
    Ok remaining
  else Ok remaining.

(** ** Family candidates: [_get_current_tf_links]

    [find_and_click_tf_family_links] repeats the same loop verbatim. *)

Definition skip_words : gset string :=
  list_to_set
    ["browse"; "search"; "about"; "home"; "view"; "more"; "here"; "feedback";
     "stats"; "links"; "cite"; "contribute"; "compare"; "register"; "login";
     "quick"; "help"; "contact"].

(** The class [[A-Za-z0-9/]]. *)
Definition tf_name_char (c : ascii) : bool :=
  Str.is_letter_az c || Str.is_decimal c || (Str.code c =? 47)%N.

(** [$] also matches just before a newline that ends the string. *)
Fixpoint drop_final_newline (s : string) : string :=
  match s with
  | EmptyString => EmptyString
  | String c EmptyString => if (Str.code c =? 10)%N then EmptyString else s
  | String c s' => String c (drop_final_newline s')
  end.

(** [re.match(r"^[A-Za-z][A-Za-z0-9/]{1,15}$", text)] *)
Definition re_match_tf_name (text : string) : bool :=
  match text with
  | EmptyString => false
  | String c rest =>
      let body := drop_final_newline rest in
      Str.is_letter_az c
      && (1 <=? String.length body)%nat && (String.length body <=? 15)%nat
      && Str.forallb tf_name_char body
  end.

(** The three tests applied to the stripped link text. *)
Definition is_tf_link_text (text : string) : bool :=
  if (String.length text <? 2)%nat || (20 <? String.length text)%nat then false
  else if bool_decide (Str.lower text ∈ skip_words) then false
  else re_match_tf_name text.

(** An anchor element, by what its accessors answer. *)
Record link : Set := Link {
  link_text : exc string;
  link_href : exc (option string)
}.

Record tf_link : Set := TfLink {
  tl_name : string;
  tl_element : link;
  tl_href : option string
}.

(** One iteration of the loop; [None] is [continue]. *)
Definition tf_link_of (l : link) : option tf_link :=
  match
    (text ← link_text l;
     let text := Str.strip text in
     href ← link_href l;
     Ok (text, href))
  with
  | Raise _ => None
  | Ok (text, href) =>
      if is_tf_link_text text then Some (TfLink text l href) else None
  end.

Definition _get_current_tf_links (all_links : exc (list link)) : list tf_link :=
  match all_links with
  | Raise _ => []
  | Ok all_links => omap tf_link_of all_links
  end.

(** The filter as the specification words it: length 2 to 20, not a stop
    word, a letter followed by at most 16 further characters, each
    alphanumeric or a slash. *)
Definition spec_name_shape (name : string) : bool :=
  match name with
  | EmptyString => false
  | String c rest =>
      Str.is_letter_az c && (String.length rest <=? 16)%nat
      && Str.forallb tf_name_char rest
  end.

Definition spec_accepts (name : string) : bool :=
  (2 <=? String.length name)%nat && (String.length name <=? 20)%nat
  && negb (bool_decide (Str.lower name ∈ skip_words))
  && spec_name_shape name.

(** ** MD5 ([hashlib.md5], RFC 1321) on byte lists *)

Module MD5.
Local Open Scope Z_scope.

Definition add32 (x y : Z) : Z := (x + y) mod 2 ^ 32.
Definition not32 (x : Z) : Z := Z.lxor x (Z.ones 32).
Definition rotl32 (x s : Z) : Z :=
  Z.lor (Z.shiftl x s mod 2 ^ 32) (Z.shiftr x (32 - s)).

(** [floor (2^32 * |sin (i + 1)|)] *)
Definition K : list Z :=
  [3614090360; 3905402710; 606105819; 3250441966; 4118548399; 1200080426;
   2821735955; 4249261313; 1770035416; 2336552879; 4294925233; 2304563134;
   1804603682; 4254626195; 2792965006; 1236535329; 4129170786; 3225465664;
   643717713; 3921069994; 3593408605; 38016083; 3634488961; 3889429448;
   568446438; 3275163606; 4107603335; 1163531501; 2850285829; 4243563512;
   1735328473; 2368359562; 4294588738; 2272392833; 1839030562; 4259657740;
   2763975236; 1272893353; 4139469664; 3200236656; 681279174; 3936430074;
   3572445317; 76029189; 3654602809; 3873151461; 530742520; 3299628645;
   4096336452; 1126891415; 2878612391; 4237533241; 1700485571; 2399980690;
   4293915773; 2240044497; 1873313359; 4264355552; 2734768916; 1309151649;
   4149444226; 3174756917; 718787259; 3951481745].

Definition shifts : list Z :=
  [7; 12; 17; 22; 7; 12; 17; 22; 7; 12; 17; 22; 7; 12; 17; 22;
   5; 9; 14; 20; 5; 9; 14; 20; 5; 9; 14; 20; 5; 9; 14; 20;
   4; 11; 16; 23; 4; 11; 16; 23; 4; 11; 16; 23; 4; 11; 16; 23;
   6; 10; 15; 21; 6; 10; 15; 21; 6; 10; 15; 21; 6; 10; 15; 21].

(** The [n] low bytes of [x], least significant first. *)
Fixpoint le_bytes (n : nat) (x : Z) : list Z :=
  match n with
  | O => []
  | S n => x mod 256 :: le_bytes n (x / 256)
  end.

Fixpoint le_word (bs : list Z) : Z :=
  match bs with
  | [] => 0
  | b :: bs => b + 256 * le_word bs
  end.

Fixpoint words (n : nat) (bs : list Z) : list Z :=
  match n with
  | O => []
  | S n => le_word (take 4 bs) :: words n (drop 4 bs)
  end.

Definition pad (msg : list Z) : list Z :=
  let len := Z.of_nat (length msg) in
  msg ++ [128] ++ replicate (Z.to_nat ((55 - len) mod 64)) 0
      ++ le_bytes 8 ((8 * len) mod 2 ^ 64).

Definition state : Set := (Z * Z * Z * Z)%type.

Definition init : state := (1732584193, 4023233417, 2562383102, 271733878).

Definition step (M : list Z) (st : state) (i : nat) : state :=
  let '(a, b, c, d) := st in
  let '(f, g) :=
    if (i <? 16)%nat then (Z.lor (Z.land b c) (Z.land (not32 b) d), i)
    else if (i <? 32)%nat then
      (Z.lor (Z.land d b) (Z.land (not32 d) c), ((5 * i + 1) mod 16)%nat)
    else if (i <? 48)%nat then (Z.lxor (Z.lxor b c) d, ((3 * i + 5) mod 16)%nat)
    else (Z.lxor c (Z.lor b (not32 d)), ((7 * i) mod 16)%nat) in
  let f := add32 (add32 (add32 f a) (nth i K 0)) (nth g M 0) in
  (d, add32 b (rotl32 f (nth i shifts 0)), b, c).

Definition compress (st : state) (chunk : list Z) : state :=
  let '(a, b, c, d) := st in
  let '(a', b', c', d') := foldl (step (words 16 chunk)) st (seq 0 64) in
  (add32 a a', add32 b b', add32 c c', add32 d d').

Fixpoint chunks (n : nat) (st : state) (bs : list Z) : state :=
  match n with
  | O => st
  | S n => chunks n (compress st (take 64 bs)) (drop 64 bs)
  end.

Definition digest (msg : list Z) : list Z :=
  let bs := pad msg in
  let '(a, b, c, d) := chunks (length bs / 64)%nat init bs in
  le_bytes 4 a ++ le_bytes 4 b ++ le_bytes 4 c ++ le_bytes 4 d.

Definition hex_digit (n : Z) : ascii :=
  default "0"%char (String.get (Z.to_nat n) "0123456789abcdef").

Fixpoint hex (bs : list Z) : string :=
  match bs with
  | [] => EmptyString
  | b :: bs => String (hex_digit (b / 16)) (String (hex_digit (b mod 16)) (hex bs))
  end.

Definition hexdigest (msg : list Z) : string := hex (digest msg).

End MD5.

(** [str.encode()]: UTF-8 of code points below 256. *)
Fixpoint encode (s : string) : list Z :=
  match s with
  | EmptyString => []
  | String c s' =>
      let n := Z.of_N (Str.code c) in
      (if (n <? 128)%Z then [n] else [192 + n / 64; 128 + n mod 64])%Z ++ encode s'
  end.

(** ** Artifact naming: [save_psfm_content] *)

(** [re.sub(r"[^\w\-_]", "_", s)] *)
Definition safe_name (s : string) : string :=
  Str.map (λ c, if Str.is_word c || (Str.code c =? 45)%N || (Str.code c =? 95)%N
                then c else "_"%char) s.

(** [re.sub(r"[^\w\-_\s]", "_", s).replace(" ", "_")] *)
Definition safe_species (s : string) : string :=
  Str.replace_space
    (Str.map (λ c, if Str.is_word c || (Str.code c =? 45)%N || (Str.code c =? 95)%N
                      || Str.is_space c
                   then c else "_"%char) s).

(** [hashlib.md5(psfm_content.encode()).hexdigest()[:8]] *)
Definition content_hash (psfm_content : string) : string :=
  String.substring 0 8 (MD5.hexdigest (encode psfm_content)).

(** [f"{n}"] for a non-negative integer. *)
Definition decimal (n : N) : string :=
  DecimalString.NilZero.string_of_uint (N.to_uint n).

Definition psfm_filename (v : view_link) (psfm_content : string) : string :=
  safe_name (vl_tf_family v) +:+ "_" +:+ safe_name (vl_tf_name v) +:+ "_"
  +:+ safe_species (vl_species_name v) +:+ "_"
  +:+ "TF" +:+ decimal (vl_tf_id v) +:+ "_SP" +:+ decimal (vl_species_id v)
  +:+ "_selenium_" +:+ content_hash psfm_content +:+ ".txt".

(** [f"{filename}.json"] *)
Definition metadata_filename (filename : string) : string := filename +:+ ".json".

Definition save_psfm_content (v : view_link) (psfm_content : string) : prog string :=
  try_catch
    (let filename := psfm_filename v psfm_content in
     (* Save the PSFM *)
     _ ← call (WriteFile matrices_dir filename (Text psfm_content));
     (* Save metadata *)
     now ← call Time;
     url ← call CurrentUrl;
     let metadata :=
       Metadata (vl_tf_name v) (vl_tf_family v) (vl_tf_id v) (vl_species_name v)
                (vl_species_id v) filename now (String.length psfm_content)
                "selenium_browser_automation" url in
     _ ← call (WriteFile metadata_dir (metadata_filename filename) (Json metadata));
     Ret "completed")
    (λ _, Ret "failed").

(** ** The per-item state machine: [process_motif_report_page] *)

Definition psfm_patterns : list string :=
  ["Download PSFM (raw-FASTA)"; "Download PSFM"].

(** The loop over [psfm_patterns]: exact link text, then partial link text. *)
Fixpoint find_psfm_link_by_text (patterns : list string) : prog (option elem) :=
  match patterns with
  | [] => Ret None
  | pattern :: patterns =>
      found ←
        except_no_such
          (e ← call (FindElement LINK_TEXT pattern); Ret (Some e))
          (except_no_such
             (e ← call (FindElement PARTIAL_LINK_TEXT pattern); Ret (Some e))
             (Ret None));
      match found with
      | Some e => Ret (Some e)
      | None => find_psfm_link_by_text patterns
      end
  end.

(** The loop over all anchors of the page. *)
Fixpoint find_psfm_link_in (all_links : list elem) : prog (option elem) :=
  match all_links with
  | [] => Ret None
  | link :: all_links =>
      hit ←
        try_catch
          (link_text ← call (ElemText link);
           let link_text := Str.strip link_text in
           _ ← call (ElemGetAttribute link "href");
           Ret (Str.nonempty link_text
                && existsb (λ pattern, Str.contains pattern link_text) psfm_patterns))
          (λ _, Ret false);
      if hit : bool then Ret (Some link) else find_psfm_link_in all_links
  end.

Definition psfm_text : string :=
  "Download Position-Specific-Frequency-Matrix of the motif in raw FASTA format".

(** The table-cell fallback. *)
Definition find_psfm_cell : prog (option elem) :=
  except_no_such
    (e ← call (FindElement XPATH ("//td[contains(text(), '" +:+ psfm_text +:+ "')]"));
     Ret (Some e))
    (except_no_such
       (e ← call (FindElement XPATH "//td[contains(text(), 'raw FASTA format')]");
        Ret (Some e))
       (Ret None)).

(** [elem.text or elem.get_attribute("value") or elem.get_attribute("name")] *)
Definition elem_label (e : elem) : prog (option string) :=
  text ← call (ElemText e);
  if Str.nonempty text then Ret (Some text)
  else
    value ← call (ElemGetAttribute e "value");
    match value with
    | Some (String _ _) => Ret value
    | _ => call (ElemGetAttribute e "name")
    end.

(** The loop over the clickable elements of the row. *)
Fixpoint pick_clickable (clickable_elements : list elem) : prog (option elem) :=
  match clickable_elements with
  | [] => Ret None
  | e :: clickable_elements =>
      hit ←
        try_catch
          (elem_text ← elem_label e;
           _ ← call (ElemTagName e);
           match elem_text with
           | None => Throw AttributeError (* None.lower() *)
           | Some elem_text =>
               Ret (existsb (λ word, Str.contains word (Str.lower elem_text))
                            ["download"; "psfm"; "fasta"])
           end)
          (λ _, Ret false);
      if hit : bool then Ret (Some e) else pick_clickable clickable_elements
  end.

(** Scroll to the element, prefer a download control of the same row, click. *)
Definition click_download (psfm_link : elem) : prog unit :=
  _ ← call (ExecuteScript "arguments[0].scrollIntoView(true);" psfm_link);
  psfm_link ←
    try_catch
      (parent_row ← call (ElemFindElement psfm_link XPATH "./ancestor::tr");
       clickable_elements ←
         call (ElemFindElements parent_row XPATH
                 ".//input[@type='submit'] | .//button | .//a");
       better ← pick_clickable clickable_elements;
       Ret (default psfm_link better))
      (λ _, Ret psfm_link);
  call (ElemClick psfm_link).

(** Reading the downloaded file and saving it. *)
Definition collect_download (v : view_link) (downloaded_file : string) : prog string :=
  try_catch
    (psfm_content ← call (ReadFile downloaded_file);
     let psfm_content := Str.strip psfm_content in
     if Str.nonempty psfm_content && (10 <? String.length psfm_content)%nat then
       success ← save_psfm_content v psfm_content;
       (* with contextlib.suppress(Exception): downloaded_file.unlink() *)
       _ ← try_catch (call (Unlink downloaded_file)) (λ _, Ret ());
       Ret success
     else Ret "failed")
    (λ _, Ret "failed").

(** The debugging listing when no download control was found. *)
Fixpoint debug_links (all_page_links : list elem) : prog unit :=
  match all_page_links with
  | [] => Ret ()
  | link :: all_page_links =>
      _ ← try_catch (_ ← call (ElemText link); Ret ()) (λ _, Ret ());
      debug_links all_page_links
  end.

Fixpoint debug_elements (download_elements : list elem) : prog unit :=
  match download_elements with
  | [] => Ret ()
  | e :: download_elements =>
      _ ← try_catch
            (elem_text ← call (ElemText e);
             if Str.nonempty (Str.strip elem_text)
             then (_ ← call (ElemTagName e); Ret ())
             else Ret ())
            (λ _, Ret ());
      debug_elements download_elements
  end.

(** [if not (export_indicators["Export data"] and
            export_indicators["csrfmiddlewaretoken"])] *)
Definition has_export (page_source : string) : bool :=
  Str.contains "Export data" page_source
  && Str.contains "csrfmiddlewaretoken" page_source.

(** What follows the export check. *)
Definition download_psfm (v : view_link) : prog string :=
  (* Look for the "Export data" tab or section *)
  _ ← except_no_such
        (export_tab ← call (FindElement PARTIAL_LINK_TEXT "Export data");
         call (ElemClick export_tab))
        (Ret ());
  (* Look for PSFM download link *)
  try_catch
    (psfm_link ← find_psfm_link_by_text psfm_patterns;
     psfm_link ←
       match psfm_link with
       | Some _ => Ret psfm_link
       | None =>
           all_links ← call (FindElements TAG_NAME "a");
           find_psfm_link_in all_links
       end;
     psfm_link ←
       match psfm_link with
       | Some _ => Ret psfm_link
       | None => find_psfm_cell
       end;
     match psfm_link with
     | Some psfm_link =>
         _ ← call (ElemTagName psfm_link);
         _ ← call (ElemText psfm_link);
         _ ← call GlobDownloads;
         clicked ← try_catch (_ ← click_download psfm_link; Ret true)
                             (λ _, Ret false);
         if clicked : bool then
           (* Wait for download to complete *)
           downloaded_file ← call WaitForDownload;
           match downloaded_file with
           | Some downloaded_file => collect_download v downloaded_file
           | None => Ret "failed"
           end
         else Ret "failed"
     | None =>
         all_page_links ← call (FindElements TAG_NAME "a");
         _ ← debug_links all_page_links;
         download_elements ←
           call (FindElements XPATH
                   "//*[contains(text(), 'Download') or contains(text(), 'PSFM')]");
         _ ← debug_elements download_elements;
         Ret "failed"
     end)
    (λ _, Ret "failed").

Definition process_motif_report_page (v : view_link) : prog string :=
  try_catch
    ((* Check if this page has export functionality *)
     page_source ← call PageSource;
     (* Only proceed if we have the key export indicators *)
     if negb (has_export page_source) then Ret "no_export"
     else download_psfm v)
    (λ _, Ret "failed").

(** ** Work-item discovery and the per-family loop:
       [process_tf_species_page] *)

Fixpoint span_digits (s : string) : string * string :=
  match s with
  | EmptyString => (EmptyString, EmptyString)
  | String c s' =>
      if Str.is_decimal c
      then let '(ds, rest) := span_digits s' in (String c ds, rest)
      else (EmptyString, s)
  end.

(** [sys.int_info.default_max_str_digits] *)
Definition max_str_digits : nat := 4300.

(** [int(ds)] on a string of decimal digits: beyond 4300 digits the
    conversion is refused. *)
Definition int_of_digits (ds : string) : exc N :=
  if (max_str_digits <? String.length ds)%nat then Raise ValueError
  else
    Ok (foldl (λ n c, 10 * n + (Str.code c - 48))%N 0%N
              (String.list_ascii_of_string ds)).

Fixpoint drop_string (n : nat) (s : string) : string :=
  match n, s with
  | S n, String _ s' => drop_string n s'
  | _, _ => s
  end.

Definition view_path : string := "/view_motif_reports_by_TF_and_species/".

(** The pattern [/view_motif_reports_by_TF_and_species/(\d+)/(\d+)/]
    anchored at the start of [s], and its two groups. A run of digits is
    followed by a slash only when the run is taken whole, so no
    backtracking is involved. *)
Definition match_ids_at (s : string) : option (string * string) :=
  if String.prefix view_path s then
    let '(tf_id, rest) := span_digits (drop_string (String.length view_path) s) in
    match tf_id, rest with
    | String _ _, String "/" rest =>
        let '(species_id, rest) := span_digits rest in
        match species_id, rest with
        | String _ _, String "/" _ =>
            Some (tf_id, species_id)
        | _, _ => None
        end
    | _, _ => None
    end
  else None.

(** [re.search(...)]: the leftmost position where the pattern matches. *)
Fixpoint re_search_ids (href : string) : option (string * string) :=
  match match_ids_at href with
  | Some ids => Some ids
  | None =>
      match href with
      | EmptyString => None
      | String _ href' => re_search_ids href'
      end
  end.

(** The names read from the table row of a link; what was assigned before
    an exception is kept. *)
Definition row_names (tf_name : string) (link : elem) : prog (string * string) :=
  let individual_tf_name := tf_name in
  let species_name := "Unknown" in
  try_catch
    (row ← call (ElemFindElement link XPATH "./ancestor::tr");
     cells ← call (ElemFindElements row TAG_NAME "td");
     match cells with
     | cell0 :: cell1 :: _ :: _ =>
         tf_cell_text ← call (ElemText cell0);
         let tf_cell_text := Str.strip tf_cell_text in
         let individual_tf_name :=
           if Str.nonempty tf_cell_text && (String.length tf_cell_text <? 20)%nat
           then tf_cell_text else individual_tf_name in
         try_catch
           (species_cell_text ← call (ElemText cell1);
            let species_cell_text := Str.strip species_cell_text in
            let species_name :=
              if Str.nonempty species_cell_text
                 && (5 <? String.length species_cell_text)%nat
              then species_cell_text else species_name in
            Ret (individual_tf_name, species_name))
           (λ _, Ret (individual_tf_name, species_name))
     | _ => Ret (individual_tf_name, species_name)
     end)
    (λ _, Ret (individual_tf_name, species_name)).

(** One iteration of the discovery loop; [None] when nothing is appended.
    The two identifiers are converted when the entry is built, after the
    row has been read. *)
Definition view_link_of (tf_name : string) (link : elem) : prog (option view_link) :=
  try_catch
    (text ← call (ElemText link);
     let text := Str.lower (Str.strip text) in
     href ← call (ElemGetAttribute link "href");
     match href with
     | Some href =>
         if Str.contains "view" text && Str.nonempty href
            && Str.contains "view_motif_reports_by_TF_and_species" href
         then
           match re_search_ids href with
           | Some (tf_id, species_id) =>
               '(individual_tf_name, species_name) ← row_names tf_name link;
               tf_id ← lift (int_of_digits tf_id);
               species_id ← lift (int_of_digits species_id);
               Ret (Some (ViewLink individual_tf_name tf_name tf_id
                                   species_name species_id href))
           | None => Ret None
           end
         else Ret None
     | None => Ret None
     end)
    (λ _, Ret None).

Fixpoint discover_view_links (tf_name : string) (all_links : list elem)
  : prog (list view_link) :=
  match all_links with
  | [] => Ret []
  | link :: all_links =>
      found ← view_link_of tf_name link;
      rest ← discover_view_links tf_name all_links;
      Ret (match found with Some v => v :: rest | None => rest end)
  end.

(** The body of the loop over [view_links], on the two accumulators
    [successful_downloads] and [family_results]. Only [driver.get] and
    [driver.back] can raise here: the page processing and the recorder
    return normally whatever happens. *)
Definition process_view_link (tf_name : string) (v : view_link)
    (acc : nat * list family_result) : prog (nat * list family_result) :=
  let '(successful_downloads, family_results) := acc in
  let species_name := vl_species_name v in
  let tf_individual_name := vl_tf_name v in
  let failed := FamilyResult tf_individual_name species_name "failed" in
  try_catch
    (_ ← call (DriverGet (vl_href v));
     result ← process_motif_report_page v;
     let family_results :=
       (family_results ++ [FamilyResult tf_individual_name species_name result])%list in
     successful_downloads ←
       (if decide (result = "completed") then
          _ ← save_motif_progress tf_individual_name species_name "completed"
                (Some (Details (Some tf_name) {["downloaded" := JBool true]}));
          Ret (S successful_downloads)
        else if decide (result = "no_export") then
          _ ← save_motif_progress tf_individual_name species_name "no_export"
                (Some (Details (Some tf_name)
                               {["reason" := JStr "no export functionality"]}));
          Ret successful_downloads
        else
          _ ← save_motif_progress tf_individual_name species_name "no_data"
                (Some (Details (Some tf_name) {["reason" := JStr "download failed"]}));
          Ret successful_downloads);
     (* Go back to TF species page *)
     try_catch (_ ← call DriverBack; Ret (successful_downloads, family_results))
               (λ _, Ret (successful_downloads, (family_results ++ [failed])%list)))
    (λ _, Ret (successful_downloads, (family_results ++ [failed])%list)).

Fixpoint process_view_links (tf_name : string) (view_links : list view_link)
    (acc : nat * list family_result) : prog (nat * list family_result) :=
  match view_links with
  | [] => Ret acc
  | v :: view_links =>
      acc ← process_view_link tf_name v acc;
      process_view_links tf_name view_links acc
  end.

Definition process_tf_species_page (tf_name : string) : prog nat :=
  try_catch
    ((* Find all links with "view" text *)
     all_links ← call (FindElements TAG_NAME "a");
     view_links ← discover_view_links tf_name all_links;
     (* Click each view link *)
     '(successful_downloads, family_results) ←
       process_view_links tf_name view_links (0, []);
     (* Log results for this TF family *)
     _ ← call (LogTfFamilyResults tf_name family_results);
     Ret successful_downloads)
    (λ _, Ret 0).

(** ** Family selection, in [find_and_click_tf_family_links] *)



(** ** The family log: [log_tf_family_results] *)




(** ** Vocabulary of the statements *)

(** The world after a program has run. *)
Definition after {A} (E : env) (p : prog A) (w : world) : world := (run E p w).1.

(** The operations performed between two worlds. *)
Definition trace_since (w w' : world) : list event :=
  drop (length (w_trace w)) (w_trace w').

(** What a reader of the progress file gets, the empty dictionary standing
    for a file that is missing or cannot be read. *)
Definition stored_progress (w : world) : value :=
  match w_progress w with Present (Ok d) => d | _ => PDict [] end.

(** A call that raises nothing. *)
Definition answers {A} (m : exc A) : Prop := ∃ a, m = Ok a.

Definition to_option {A} (m : exc A) : option A :=
  match m with Ok a => Some a | Raise _ => None end.

Definition as_string (x : value) : option string :=
  match x with PStr s => Some s | _ => None end.

Definition as_dict (x : value) : option (list (string * value)) :=
  match x with PDict fields => Some fields | _ => None end.

(** The status of a family in a progress value. *)
Definition family_status (d : value) (tf_family : string) : option string :=
  to_option (Py.getitem d tf_family) ≫= λ entry,
  to_option (Py.getitem entry "status") ≫= as_string.

(** The records of the work items of a family, in the order of the file. *)
Definition family_reports (d : value) (tf_family : string)
  : option (list (string * value)) :=
  to_option (family_motif_reports d tf_family) ≫= as_dict.

(** The keys under which work items are recorded for a family; none when
    the family has no record. *)
Definition report_keys (d : value) (tf_family : string) : list string :=
  match family_reports d tf_family with
  | Some reports => reports.*1
  | None => []
  end.

Definition report_field (field : string) (report : value) : option string :=
  to_option (Py.getitem report field) ≫= as_string.

(** The record of a work item in a progress value. *)
Definition recorded_report (d : value) (tf_family key : string) : option value :=
  family_reports d tf_family ≫= Py.dict_get key.

(** The status recorded for a work item in a progress value. *)
Definition recorded_status (d : value) (tf_family key : string) : option string :=
  recorded_report d tf_family key ≫= report_field "status".

(** What the blocks of [save_motif_progress] between the reading and the
    writing of the progress file make of the value read, given the two
    clock readings. *)
Definition record_motif (progress_data : value)
    (tf_name species_name status : string) (d : option details)
    (t_family t_report : Z) : exc value :=
  let tf_family := owning_family tf_name d in
  progress_data ←
    (present ← Py.contains tf_family progress_data;
     if present : bool then Ok progress_data
     else Py.setitem progress_data tf_family (new_family_entry t_family));
  progress_data ← ensure_motif_reports tf_family progress_data;
  let report := new_report tf_name species_name status t_report d in
  progress_data ←
    update_motif_report tf_family (motif_key tf_name species_name) report
      progress_data;
  update_family_status tf_family progress_data.

Definition is_progress_write (ev : event) : bool :=
  match ev_op ev with WriteProgressFile _ => true | _ => false end.

(** Operations none of which writes the progress file. *)
Definition no_write (pre : list event) : Prop :=
  Forall (λ ev, is_progress_write ev = false) pre.

(** The progress values written, in order. *)
Definition progress_writes (tr : list event) : list value :=
  omap (λ ev, match ev_op ev with WriteProgressFile d => Some d | _ => None end) tr.

(** The report pages navigated to, in order. *)
Definition attempted (tr : list event) : list string :=
  omap (λ ev, match ev_op ev with DriverGet url => Some url | _ => None end) tr.

Definition is_checkpoint_op (ev : event) : bool :=
  match ev_op ev with
  | CompletedFileExists | ReadCompletedFile | ProgressFileExists
  | ReadProgressFile | WriteProgressFile _ => true
  | _ => false
  end.

(** An operation that neither reads nor writes the checkpoint files. *)
Definition browser_only (ev : event) : Prop := is_checkpoint_op ev = false.

(** Every operation a program can perform, whatever the answers, is in [P]. *)
Inductive ops_in (P : event → Prop) {A : Type} : prog A → Prop :=
  | ops_in_ret a : ops_in P (Ret a)
  | ops_in_throw e : ops_in P (Throw e)
  | ops_in_do {X} (c : op X) k :
      P (Ev c) → (∀ r, ops_in P (k r)) → ops_in P (Do c k).

(** The answers an operation can get: the clock and the family log never
    raise. *)
Definition can_answer {X} (c : op X) (r : exc X) : Prop :=
  match c with
  | Time | LogTfFamilyResults _ _ => ∃ x, r = Ok x
  | _ => True
  end.

(** Every run of [p] that starts after the operations [tr] ends with
    operations and an outcome in [Q], whatever the answers. *)
Fixpoint wp {A} (p : prog A) (tr : list event)
    (Q : list event → exc A → Prop) : Prop :=
  match p with
  | Ret a => Q tr (Ok a)
  | Throw e => Q tr (Raise e)
  | Do c k => ∀ r, can_answer c r → wp (k r) (tr ++ [Ev c]) Q
  end.

(** The four operations of a successful [save_psfm_content]: the artifact,
    the two readings for its metadata, the metadata sidecar. *)
Definition save_events (v : view_link) (psfm_content : string) (now : Z)
    (url : string) : list event :=
  let filename := psfm_filename v psfm_content in
  [Ev (WriteFile matrices_dir filename (Text psfm_content));
   Ev Time;
   Ev CurrentUrl;
   Ev (WriteFile metadata_dir (metadata_filename filename)
         (Json (Metadata (vl_tf_name v) (vl_tf_family v) (vl_tf_id v)
                         (vl_species_name v) (vl_species_id v) filename now
                         (String.length psfm_content)
                         "selenium_browser_automation" url)))].

(** Among the operations [tr], a download was waited for and then read, and
    its stripped content, longer than 10 characters, was saved with its
    metadata. *)
Definition artifact_saved (v : view_link) (tr : list event) : Prop :=
  ∃ pre downloaded_file raw now url post,
    tr = pre ++ [Ev WaitForDownload; Ev (ReadFile downloaded_file)]
             ++ save_events v (Str.strip raw) now url ++ post
    ∧ (10 < String.length (Str.strip raw))%nat.

(** The three outcomes of [process_motif_report_page] on the operations
    [tr] it performed: ["completed"] after an artifact was saved,
    ["no_export"] after the page source alone was read, ["failed"]. *)
Definition classified (v : view_link) (tr : list event) (r : exc string) : Prop :=
  (r = Ok "completed" ∧ artifact_saved v tr)
  ∨ (r = Ok "no_export" ∧ tr = [Ev PageSource])
  ∨ r = Ok "failed".





Fixpoint last_char (s : string) : option ascii :=
  match s with
  | EmptyString => None
  | String c EmptyString => Some c
  | String _ s' => last_char s'
  end.

(** A letter followed by 1 to 15 characters, each a letter, a digit or a
    slash. *)
Definition tf_name_shape (name : string) : Prop :=
  ∃ c rest, name = String c rest ∧ Str.is_letter_az c = true
    ∧ (1 ≤ String.length rest ≤ 15)%nat ∧ Str.forallb tf_name_char rest = true.

(** Not a path separator: neither [/] nor [\]. *)
Definition not_separator (c : ascii) : bool :=
  negb ((Str.code c =? 47)%N || (Str.code c =? 92)%N).

(** A word character, [-] or [_]. *)
Definition name_char (c : ascii) : bool :=
  Str.is_word c || (Str.code c =? 45)%N || (Str.code c =? 95)%N.

(** As [name_char], or whitespace other than the space. *)
Definition species_char (c : ascii) : bool :=
  name_char c || (Str.is_space c && negb (Str.code c =? 32)%N).

(** A write into an output directory names a file without separators. *)
Definition flat_write (ev : event) : Prop :=
  match ev_op ev with
  | WriteFile _ filename _ => Str.forallb not_separator filename = true
  | _ => True
  end.

(** The status the per-family loop hands to the recorder for a
    classification of [process_motif_report_page]. *)
Definition persisted_status (result : string) : string :=
  if decide (result = "completed") then "completed"
  else if decide (result = "no_export") then "no_export"
  else "no_data".

(** ** Environments and scenarios *)

(** Every call on the browser fails; the progress file can be written. *)
Definition quiet_env : env :=
  Env (λ X _ c,
         match c in op X return exc X with
         | WriteProgressFile _ => Ok ()
         | _ => Raise WebDriverException
         end)
      (λ _, 0%Z) (λ _, false).

(** No checkpoint file, nothing performed yet. *)
Definition fresh_world : world := World Absent Absent [].

(** A new process on the same checkpoint files. *)
Definition restart (w : world) : world :=
  World (w_completed w) (w_progress w) [].

Definition arac_xyls : string := "AraC/XylS".

Definition href_arac : string :=
  "http://www.collectf.org/browse/view_motif_reports_by_TF_and_species/10/20/".
Definition href_xyls : string :=
  "http://www.collectf.org/browse/view_motif_reports_by_TF_and_species/11/21/".

Definition v_arac : view_link :=
  ViewLink "AraC" arac_xyls 10 "Escherichia coli" 20 href_arac.
Definition v_xyls : view_link :=
  ViewLink "XylS" arac_xyls 11 "Pseudomonas putida" 21 href_xyls.

(** The species page of the family AraC/XylS: two "view" anchors (1 and 2),
    each in a table row of three cells, and report pages that carry both
    export markers. With [downloads], the export tab (40) and the download
    link (30) are found and a file is downloaded; without, no download
    control is found. *)
Definition species_page (downloads : bool) : ∀ X, list event → op X → exc X :=
  λ X _ c,
    match c in op X return exc X with
    | DriverGet _ | DriverBack => Ok ()
    | FindElements TAG_NAME _ => Ok [1; 2]%N
    | ElemText e =>
        Ok (if decide (e = 1 ∨ e = 2)%N then "view"
            else if decide (e = 111)%N then "AraC"
            else if decide (e = 112)%N then "Escherichia coli"
            else if decide (e = 121)%N then "XylS"
            else if decide (e = 122)%N then "Pseudomonas putida"
            else "Download PSFM (raw-FASTA)")
    | ElemGetAttribute e _ =>
        Ok (if decide (e = 1)%N then Some href_arac
            else if decide (e = 2)%N then Some href_xyls else None)
    | ElemFindElement e _ _ =>
        if decide (e = 1)%N then Ok 11%N
        else if decide (e = 2)%N then Ok 12%N
        else Raise NoSuchElementException
    | ElemFindElements e _ _ =>
        if decide (e = 11)%N then Ok [111; 112; 113]%N
        else if decide (e = 12)%N then Ok [121; 122; 123]%N
        else Ok []
    | PageSource =>
        Ok "<a>Export data</a><input name='csrfmiddlewaretoken'>"
    | FindElement b value =>
        if downloads then
          match b with
          | PARTIAL_LINK_TEXT => Ok 40%N
          | LINK_TEXT => Ok 30%N
          | _ => Raise NoSuchElementException
          end
        else Raise NoSuchElementException
    | ElemClick _ | ExecuteScript _ _ | Unlink _ | WriteFile _ _ _
    | WriteProgressFile _ => Ok ()
    | ElemTagName _ => Ok "a"
    | GlobDownloads => Ok []
    | WaitForDownload => Ok (Some "temp_downloads/psfm.txt")
    | ReadFile _ => Ok ">AraC_Escherichia_coli 0.25 0.25 0.25 0.25"
    | CurrentUrl => Ok href_arac
    | _ => Raise WebDriverException
    end.

Definition working_site : env :=
  Env (species_page true) (λ _, 0%Z) (λ _, false).
Definition site_without_download_link : env :=
  Env (species_page false) (λ _, 0%Z) (λ _, false).

(** A report page with the security token but no "Export data". *)
Definition page_without_export : env :=
  Env (λ X _ c,
         match c in op X return exc X with
         | PageSource => Ok "<form><input name='csrfmiddlewaretoken'></form>"
         | _ => Raise WebDriverException
         end)
      (λ _, 0%Z) (λ _, false).

(** The [details] the per-family loop passes to the recorder. *)
Definition loop_details (tf_family k : string) (v : jval) : option details :=
  Some (Details (Some tf_family) {[k := v]}).

(** The recorder called for AraC / E. coli (downloaded), then for
    XylS / P. putida (download failed), as the loop over AraC/XylS does. *)
Definition arac_recorded : world :=
  after quiet_env
    (save_motif_progress "AraC" "Escherichia coli" "completed"
       (loop_details arac_xyls "downloaded" (JBool true)))
    fresh_world.

Definition xyls_failure_recorded : world :=
  after quiet_env
    (save_motif_progress "XylS" "Pseudomonas putida" "no_data"
       (loop_details arac_xyls "reason" (JStr "download failed")))
    arac_recorded.

(** A first run that processes AraC / E. coli and stops; a second run of
    the family page on the checkpoint it left. *)
Definition first_run : world :=
  after working_site (process_view_link arac_xyls v_arac (0, [])) fresh_world.

Definition second_run : world :=
  after working_site (process_tf_species_page arac_xyls) (restart first_run).

(** * Properties *)

(** ** Running programs *)

Lemma run_bind {A B} E (p : prog A) (f : A → prog B) w :
  run E (p ≫= f) w =
  let '(w', r) := run E p w in
  match r with Ok a => run E (f a) w' | Raise e => (w', Raise e) end.
Proof.
  unfold mbind, prog_bind. revert w.
  induction p as [a|e|X c k IH]; intros w; simpl; try done.
  destruct (perform E c w) as [w' r]. apply IH.
Qed.

Lemma run_try_catch {A} E (p : prog A) h w :
  run E (try_catch p h) w =
  let '(w', r) := run E p w in
  match r with Ok a => (w', Ok a) | Raise e => run E (h e) w' end.
Proof.
  revert w. induction p as [a|e|X c k IH]; intros w; simpl; try done.
  destruct (perform E c w) as [w' r]. apply IH.
Qed.

Lemma run_call {X} E (c : op X) w : run E (call c) w = perform E c w.
Proof.
  unfold call. simpl. destruct (perform E c w) as [w' [x|e]]; done.
Qed.

Lemma run_lift {A} E (m : exc A) w : run E (lift m) w = (w, m).
Proof. by destruct m. Qed.

(** A block whose handler returns a value returns, whatever happens in it. *)
Lemma run_catch_all_ok E {A} (p : prog A) (a : A) w :
  ∃ a', (run E (try_catch p (λ _, Ret a)) w).2 = Ok a'.
Proof.
  rewrite run_try_catch. destruct (run E p w) as [w' [x|e]]; simpl; eauto.
Qed.

Lemma trace_since_app w cf pf new :
  trace_since w (World cf pf (w_trace w ++ new)) = new.
Proof. unfold trace_since. simpl. by rewrite drop_app_length. Qed.

(** ** The progress store *)

(** C8, as stated, fails: a progress file that parses, though not to a
    mapping of family entries, is returned as parsed and not as the empty
    mapping; here the list [[1, 2]], on which the resume summary of the
    same run then raises. *)
Lemma parsed_progress_is_returned_as_is :
  let corrupt := PList [PNum 1; PNum 2] in
  (run quiet_env load_progress (World Absent (Present (Ok corrupt)) [])).2
    = Ok (∅, corrupt)
  ∧ corrupt ≠ PDict []
  ∧ get_resume_summary ∅ ["AraC"] (Some corrupt) = Raise AttributeError.
Proof. vm_compute. done. Qed.

(** When a test for existence raises, so does [load_progress]. *)
Lemma load_progress_raises E w e :
  exists_ (w_completed w) = Raise e
  ∨ (answers (exists_ (w_completed w)) ∧ exists_ (w_progress w) = Raise e) →
  (run E load_progress w).2 = Raise e.
Proof.
  destruct w as [[|[lines|e1]|e1] [|[pd|e2]|e2] tr];
    intros [H|[[b Hb] H]]; simplify_eq/=; done.
Qed.

(** C8, amended. Whenever the two tests for existence answer,
    [load_progress] returns normally, whatever the environment does: a
    ledger that is missing or cannot be read gives the empty set, a
    progress file that is missing, cannot be read or cannot be parsed gives
    the empty mapping, and the other part of the result is not affected; a
    progress file that parses is returned as parsed, whatever it holds. *)
Theorem load_progress_returns E w :
  answers (exists_ (w_completed w)) →
  answers (exists_ (w_progress w)) →
  (run E load_progress w).2 =
    Ok (match w_completed w with
        | Present (Ok lines) => ledger_names lines
        | _ => ∅
        end,
        match w_progress w with
        | Present (Ok progress_data) => progress_data
        | _ => PDict []
        end).
Proof.
  destruct w as [[|[lines|e1]|e1] [|[pd|e2]|e2] tr];
    intros [b1 H1] [b2 H2]; simplify_eq/=; reflexivity.
Qed.

Lemma load_progress_returns_witness :
  (run quiet_env load_progress
     (World (Present (Raise UnicodeError)) (Present (Raise JSONDecodeError)) [])).2
  = Ok (∅, PDict []).
Proof.
  apply (load_progress_returns quiet_env
           (World (Present (Raise UnicodeError)) (Present (Raise JSONDecodeError)) []));
    by eexists.
Defined.

(** ** Dictionaries *)

Lemma dict_get_set_eq {A} k (v : A) l : Py.dict_get k (Py.dict_set k v l) = Some v.
Proof.
  induction l as [|[k' v'] l IH]; simpl.
  - by rewrite decide_True.
  - destruct (decide (k' = k)) as [->|Hne]; simpl.
    + by rewrite decide_True.
    + by rewrite decide_False.
Qed.

Lemma dict_get_set_ne {A} k k' (v : A) l :
  k ≠ k' → Py.dict_get k' (Py.dict_set k v l) = Py.dict_get k' l.
Proof.
  intros Hne. induction l as [|[k0 v0] l IH]; simpl.
  - by rewrite decide_False.
  - destruct (decide (k0 = k)) as [->|Hne0]; simpl.
    + by rewrite !decide_False.
    + by rewrite IH.
Qed.

Lemma dict_set_set {A} k (v v' : A) l :
  Py.dict_set k v (Py.dict_set k v' l) = Py.dict_set k v l.
Proof.
  induction l as [|[k0 v0] l IH]; simpl.
  - by rewrite decide_True.
  - destruct (decide (k0 = k)) as [->|Hne0]; simpl.
    + by rewrite decide_True.
    + by rewrite decide_False, IH.
Qed.

Lemma dict_get_is_Some {A} k (l : list (string * A)) :
  is_Some (Py.dict_get k l) ↔ k ∈ l.*1.
Proof.
  induction l as [|[k0 v0] l IH]; simpl.
  - split; [by intros [? ?]|by intros ?%elem_of_nil].
  - destruct (decide (k0 = k)) as [->|Hne0].
    + split; [intros _; left|by eauto].
    + rewrite IH, elem_of_cons. split; [by right|]. by intros [?|?].
Qed.

(** Assigning to a key that is present replaces its value and adds no key;
    a new key is added last. *)
Lemma dict_set_keys {A} k (v : A) l :
  (Py.dict_set k v l).*1 = if decide (k ∈ l.*1) then l.*1 else l.*1 ++ [k].
Proof.
  induction l as [|[k0 v0] l IH].
  - cbn [Py.dict_set fmap list_fmap fst]. case_decide as Hin; [|done].
    by apply elem_of_nil in Hin.
  - cbn [Py.dict_set]. destruct (decide (k0 = k)) as [->|Hne0].
    + rewrite decide_True by left. done.
    + rewrite fmap_cons, IH. cbn [fst]. destruct (decide (k ∈ l.*1)) as [Hin|Hnin].
      * rewrite decide_True by (by right). done.
      * rewrite decide_False; [done|]. rewrite fmap_cons, elem_of_cons.
        cbn [fst]. by intros [?|?].
Qed.

(** ** The recorder *)

Lemma bind_Ok {A B} (m : exc A) (f : A → exc B) b :
  m ≫= f = Ok b → ∃ a, m = Ok a ∧ f a = Ok b.
Proof. destruct m as [a|e]; [by exists a|done]. Qed.

Lemma getitem_Ok x k v :
  Py.getitem x k = Ok v → ∃ l, x = PDict l ∧ Py.dict_get k l = Some v.
Proof.
  destruct x as [| | | | |l]; try done. simpl.
  destruct (Py.dict_get k l) as [v'|] eqn:H; [|done].
  intros [= ->]. by exists l.
Qed.

Lemma setitem_Ok x k v x' :
  Py.setitem x k v = Ok x' → ∃ l, x = PDict l ∧ x' = PDict (Py.dict_set k v l).
Proof. destruct x as [| | | | |l]; try done. intros [= <-]. by exists l. Qed.

Lemma family_motif_reports_Ok pd fam r :
  family_motif_reports pd fam = Ok r →
  ∃ l ef df, pd = PDict l ∧ Py.dict_get fam l = Some (PDict ef)
    ∧ Py.dict_get "details" ef = Some (PDict df)
    ∧ Py.dict_get "motif_reports" df = Some r.
Proof.
  unfold family_motif_reports, family_details.
  intros (dv & (e & (l & -> & Hl)%getitem_Ok & (ef & -> & Hef)%getitem_Ok)%bind_Ok
          & (df & -> & Hdf)%getitem_Ok)%bind_Ok.
  by exists l, ef, df.
Qed.

Lemma set_family_motif_reports_eq l fam ef df r :
  Py.dict_get fam l = Some (PDict ef) →
  Py.dict_get "details" ef = Some (PDict df) →
  set_family_motif_reports (PDict l) fam r =
    Ok (PDict (Py.dict_set fam
                 (PDict (Py.dict_set "details"
                           (PDict (Py.dict_set "motif_reports" r df)) ef)) l)).
Proof.
  intros Hl Hef. unfold set_family_motif_reports. simpl. rewrite Hl. simpl.
  by rewrite Hef.
Qed.

Lemma record_motif_tail fam key report l entry pd' :
  Py.dict_get fam l = Some entry →
  (progress_data ← ensure_motif_reports fam (PDict l);
   progress_data ← update_motif_report fam key report progress_data;
   update_family_status fam progress_data) = Ok pd' →
  ∃ ef df reps (completed : bool),
    entry = PDict ef
    ∧ Py.dict_get "details" ef = Some (PDict df)
    ∧ match Py.dict_get "motif_reports" df with
      | Some motif_reports => motif_reports
      | None => PDict []
      end = PDict reps
    ∧ let reps' := Py.dict_set key report reps in
      all_completed reps'.*2 = Ok completed
      ∧ pd' = PDict (Py.dict_set fam
                (PDict ((if completed
                         then Py.dict_set "status" (PStr "completed")
                         else id)
                          (Py.dict_set "details"
                             (PDict (Py.dict_set "motif_reports" (PDict reps') df))
                             ef)))
                l).
Proof.
  intros Hl (pd1 & Hensure & (pd2 & Hupdate & Hstatus)%bind_Ok)%bind_Ok.
  (* the report can be assigned: the path to the reports is made of
     dictionaries *)
  unfold update_motif_report in Hupdate.
  apply bind_Ok in Hupdate as (mr & Hmr & (mr' & Hset & Hput)%bind_Ok).
  apply family_motif_reports_Ok in Hmr as (l1 & ef1 & df1 & -> & Hl1 & Hef1 & Hdf1).
  apply setitem_Ok in Hset as (reps1 & -> & ->).
  rewrite (set_family_motif_reports_eq _ _ _ _ _ Hl1 Hef1) in Hput.
  injection Hput as <-.
  (* the status *)
  unfold update_family_status, family_motif_reports, family_details in Hstatus.
  simpl in Hstatus. rewrite !dict_get_set_eq in Hstatus. simpl in Hstatus.
  rewrite !dict_get_set_eq in Hstatus. simpl in Hstatus.
  rewrite !dict_get_set_eq in Hstatus. simpl in Hstatus.
  apply bind_Ok in Hstatus as (completed & Hall & Hstatus).
  assert (pd' = PDict (Py.dict_set fam
                (PDict ((if completed
                         then Py.dict_set "status" (PStr "completed")
                         else id)
                          (Py.dict_set "details"
                             (PDict (Py.dict_set "motif_reports"
                                       (PDict (Py.dict_set key report reps1)) df1))
                             ef1)))
                l1)) as ->.
  { destruct completed; [|by injection Hstatus].
    unfold set_family_status in Hstatus. simpl in Hstatus.
    rewrite dict_get_set_eq in Hstatus. simpl in Hstatus.
    rewrite dict_set_set in Hstatus. by injection Hstatus. }
  clear Hstatus.
  (* what "Ensure motif_reports exists" did *)
  unfold ensure_motif_reports, family_details in Hensure.
  apply bind_Ok in Hensure as
      (dv & (e & (? & [= <-] & Hl')%getitem_Ok & (ef & -> & Hef)%getitem_Ok)%bind_Ok
       & (present & Hpresent & Hensure)%bind_Ok).
  rewrite Hl in Hl'. injection Hl' as ->.
  destruct present.
  - injection Hensure as <-. rewrite Hl in Hl1. injection Hl1 as <-.
    rewrite Hef in Hef1. injection Hef1 as ->.
    exists ef, df1, reps1, completed. rewrite Hdf1. done.
  - unfold set_family_motif_reports in Hensure. simpl in Hensure.
    rewrite Hl in Hensure. simpl in Hensure. rewrite Hef in Hensure.
    simpl in Hensure.
    apply bind_Ok in Hensure as (dv' & (df & -> & ->)%setitem_Ok & [= <-]).
    rewrite dict_get_set_eq in Hl1. injection Hl1 as <-.
    rewrite dict_get_set_eq in Hef1. injection Hef1 as <-.
    rewrite dict_get_set_eq in Hdf1. injection Hdf1 as <-.
    simpl in Hpresent. injection Hpresent as Hpresent.
    apply bool_decide_eq_false in Hpresent.
    destruct (Py.dict_get "motif_reports" df) as [x|] eqn:Hdf; [by destruct Hpresent|].
    exists ef, df, [], completed. rewrite Hdf, !dict_set_set. done.
Qed.

(** What the recorder makes of the value it read, when no block raises:
    the value is a dictionary; the entry of the family, a new one when the
    family has none, is a dictionary whose ["details"] are a dictionary
    whose ["motif_reports"], if any, are a dictionary; the record is
    assigned under its key, and the status of the family set when all
    records are completed. *)
Lemma record_motif_inv pd tf sp st d t1 t2 pd' :
  record_motif pd tf sp st d t1 t2 = Ok pd' →
  let fam := owning_family tf d in
  ∃ l ef df reps (completed : bool),
    pd = PDict l
    ∧ match Py.dict_get fam l with
      | Some entry => entry
      | None => new_family_entry t1
      end = PDict ef
    ∧ Py.dict_get "details" ef = Some (PDict df)
    ∧ match Py.dict_get "motif_reports" df with
      | Some motif_reports => motif_reports
      | None => PDict []
      end = PDict reps
    ∧ let reps' := Py.dict_set (motif_key tf sp) (new_report tf sp st t2 d) reps in
      all_completed reps'.*2 = Ok completed
      ∧ pd' = PDict (Py.dict_set fam
                (PDict ((if completed
                         then Py.dict_set "status" (PStr "completed")
                         else id)
                          (Py.dict_set "details"
                             (PDict (Py.dict_set "motif_reports" (PDict reps') df))
                             ef)))
                l).
Proof.
  unfold record_motif. cbn zeta. generalize (owning_family tf d). intros fam.
  intros (pd1 & (present & Hpresent & Hinit)%bind_Ok & Htail)%bind_Ok.
  destruct present.
  - injection Hinit as <-.
    apply bind_Ok in Htail as Htail'. destruct Htail' as (pd2 & Hensure & _).
    unfold ensure_motif_reports, family_details in Hensure.
    apply bind_Ok in Hensure as
      (dv & (e & (l & -> & Hl)%getitem_Ok & _)%bind_Ok & _).
    destruct (record_motif_tail _ _ _ _ _ _ Hl Htail)
      as (ef & df & reps & completed & -> & ? & ? & ? & ?).
    exists l, ef, df, reps, completed. by rewrite Hl.
  - apply setitem_Ok in Hinit as (l & -> & ->).
    simpl in Hpresent. injection Hpresent as Hpresent.
    apply bool_decide_eq_false in Hpresent.
    destruct (Py.dict_get fam l) as [x|] eqn:Hl; [by destruct Hpresent|].
    destruct (record_motif_tail _ _ _ _ _ _ (dict_get_set_eq _ _ _) Htail)
      as (ef & df & reps & completed & ? & ? & ? & ? & ->).
    exists l, ef, df, reps, completed. by rewrite Hl, dict_set_set.
Qed.

Lemma run_load_existing_progress E w :
  ∃ pre,
    run E load_existing_progress w =
      (World (w_completed w) (w_progress w) (w_trace w ++ pre),
       _ ← exists_ (w_progress w); Ok (stored_progress w))
    ∧ no_write pre.
Proof.
  destruct w as [cf pf tr]. unfold load_existing_progress, stored_progress.
  rewrite run_bind, run_call. cbn.
  destruct pf as [|[pd|e]|e]; cbn.
  - exists [Ev ProgressFileExists]. split; [done|]. repeat constructor.
  - exists [Ev ProgressFileExists; Ev ReadProgressFile].
    rewrite <- app_assoc. split; [done|]. repeat constructor.
  - exists [Ev ProgressFileExists; Ev ReadProgressFile].
    rewrite <- app_assoc. split; [done|]. repeat constructor.
  - exists [Ev ProgressFileExists]. split; [done|]. repeat constructor.
Qed.

Lemma run_init_family E w fam pd :
  ∃ t pre,
    run E (init_family fam pd) w =
      (World (w_completed w) (w_progress w) (w_trace w ++ pre),
       present ← Py.contains fam pd;
       if present : bool then Ok pd else Py.setitem pd fam (new_family_entry t))
    ∧ no_write pre.
Proof.
  destruct w as [cf pf tr]. unfold init_family.
  rewrite run_bind, run_lift.
  destruct (Py.contains fam pd) as [[|]|e]; cbn.
  - exists 0%Z, []. rewrite app_nil_r. split; [done|constructor].
  - exists (env_clock E tr), [Ev Time]. rewrite run_lift.
    split; [done|]. repeat constructor.
  - exists 0%Z, []. rewrite app_nil_r. split; [done|constructor].
Qed.

Lemma run_save_motif_progress E w tf sp st d :
  ∃ t1 t2 pre,
    no_write pre
    ∧ run E (save_motif_progress tf sp st d) w =
        match _ ← exists_ (w_progress w);
              record_motif (stored_progress w) tf sp st d t1 t2 with
        | Ok pd =>
            let tr := w_trace w ++ pre in
            (World (w_completed w)
                   (write_file (w_progress w) pd
                      (env_answer E _ tr (WriteProgressFile pd)) (env_torn E tr))
                   (tr ++ [Ev (WriteProgressFile pd)]),
             Ok ())
        | Raise _ =>
            (World (w_completed w) (w_progress w) (w_trace w ++ pre), Ok ())
        end.
Proof.
  unfold save_motif_progress.
  destruct (run_load_existing_progress E w) as (pre1 & Hrun1 & Hpre1).
  rewrite run_try_catch, run_bind, Hrun1. cbn zeta.
  destruct (exists_ (w_progress w)) as [b|e]; cbn [mbind exc_bind];
    [|exists 0%Z, 0%Z, pre1; by split].
  set (w1 := World (w_completed w) (w_progress w) (w_trace w ++ pre1)).
  destruct (run_init_family E w1 (owning_family tf d) (stored_progress w))
    as (t1 & pre2 & Hrun2 & Hpre2).
  rewrite run_bind, Hrun2. unfold record_motif. cbn zeta.
  destruct (Py.contains _ _ ≫= _) as [pd1|e] eqn:Hinit.
  2: { exists t1, 0%Z, (pre1 ++ pre2). rewrite app_assoc.
       split; [by apply Forall_app|]. by rewrite Hinit. }
  rewrite run_bind, run_lift.
  destruct (ensure_motif_reports _ pd1) as [pd2|e] eqn:Hensure.
  2: { exists t1, 0%Z, (pre1 ++ pre2). rewrite app_assoc.
       split; [by apply Forall_app|]. rewrite Hinit. cbn [mbind exc_bind].
       by rewrite Hensure. }
  rewrite run_bind, run_call. cbn [perform w_trace w_completed w_progress w1].
  exists t1, (env_clock E ((w_trace w ++ pre1) ++ pre2)), (pre1 ++ pre2 ++ [Ev Time]).
  split; [apply Forall_app; split; [done|apply Forall_app; split; [done|by repeat constructor]]|].
  rewrite Hinit. cbn [mbind exc_bind]. rewrite Hensure. cbn [mbind exc_bind].
  rewrite run_bind, run_lift, !app_assoc.
  destruct (update_motif_report _ _ _ pd2) as [pd3|e]; [|done].
  cbn [mbind exc_bind]. rewrite run_bind, run_lift.
  destruct (update_family_status _ pd3) as [pd4|e]; [|done].
  rewrite run_call. cbn [perform w_trace w_completed w_progress].
  by destruct (env_answer E _ _ _) as [[]|e].
Qed.

Lemma progress_writes_app tr1 tr2 :
  progress_writes (tr1 ++ tr2) = progress_writes tr1 ++ progress_writes tr2.
Proof. apply omap_app. Qed.

Lemma progress_writes_no_write tr : no_write tr → progress_writes tr = [].
Proof.
  induction 1 as [|[X c] tr Hc _ IH]; [done|].
  destruct c; try discriminate Hc; exact IH.
Qed.

(** A write of the recorder is the value it read with the item recorded. *)
Lemma written_by_save_motif_progress E w tf sp st d written :
  written ∈ progress_writes
              (trace_since w (after E (save_motif_progress tf sp st d) w)) →
  ∃ t1 t2, record_motif (stored_progress w) tf sp st d t1 t2 = Ok written.
Proof.
  destruct (run_save_motif_progress E w tf sp st d) as (t1 & t2 & pre & Hpre & Hrun).
  unfold after. rewrite Hrun. clear Hrun.
  destruct (exists_ (w_progress w)) as [b|e]; cbn [mbind exc_bind].
  - destruct (record_motif _ _ _ _ _ _ _) as [pd|e] eqn:Hrec; cbn zeta; cbn [fst].
    + rewrite <- app_assoc, trace_since_app, progress_writes_app,
        (progress_writes_no_write _ Hpre).
      intros ->%list_elem_of_singleton. eauto.
    + rewrite trace_since_app, (progress_writes_no_write _ Hpre).
      by intros ?%elem_of_nil.
  - cbn [fst]. rewrite trace_since_app, (progress_writes_no_write _ Hpre).
    by intros ?%elem_of_nil.
Qed.

Lemma all_completed_Forall reports completed :
  all_completed reports = Ok completed →
  completed = true ↔
    Forall (λ report, report_field "status" report = Some "completed") reports.
Proof.
  revert completed. induction reports as [|report reports IH]; intros completed.
  - intros [= <-]. split; [constructor|done].
  - cbn [all_completed].
    intros (status & (l & -> & Hstatus)%getitem_Ok & Hrest)%bind_Ok.
    rewrite Forall_cons. unfold report_field at 1. simpl. rewrite Hstatus. simpl.
    destruct status as [| | |s| |]; simpl in Hrest; try injection Hrest as <-;
      try (split; [done|by intros [? _]]).
    case_bool_decide as Hs.
    + subst s. rewrite (IH _ Hrest). simpl. split; [done|by intros [_ ?]].
    + injection Hrest as <-. split; [done|]. simpl. intros [[= ?] _]. done.
Qed.

(** What a value that took the record holds: the record of the item under
    its key; the keys the family had, and this key, added last when it is
    new; the family ["completed"] exactly when all its records are
    completed or it was ["completed"] before; the other families as they
    were. *)
Lemma record_motif_facts pd tf sp st d t1 t2 pd' :
  record_motif pd tf sp st d t1 t2 = Ok pd' →
  let fam := owning_family tf d in
  let key := motif_key tf sp in
  ∃ reps,
    family_reports pd' fam = Some reps
    ∧ Py.dict_get key reps = Some (new_report tf sp st t2 d)
    ∧ reps.*1 = (if decide (key ∈ report_keys pd fam)
                 then report_keys pd fam else report_keys pd fam ++ [key])
    ∧ (family_status pd' fam = Some "completed" ↔
         Forall (λ report, report_field "status" report = Some "completed") reps.*2
         ∨ family_status pd fam = Some "completed")
    ∧ ∀ other, other ≠ fam → Py.getitem pd' other = Py.getitem pd other.
Proof.
  intros Hrec fam key.
  destruct (record_motif_inv _ _ _ _ _ _ _ _ Hrec)
    as (l & ef & df & reps & completed & -> & Hentry & Hef & Hdf & Hall & ->).
  fold fam key in Hentry, Hall |- *.
  set (reps' := Py.dict_set key (new_report tf sp st t2 d) reps) in *.
  set (ef' := Py.dict_set "details"
                (PDict (Py.dict_set "motif_reports" (PDict reps') df)) ef).
  assert (Hdetails : ∀ ef'' : list (string * value),
    ef'' = (if completed then Py.dict_set "status" (PStr "completed") else id) ef' →
    Py.dict_get "details" ef''
      = Some (PDict (Py.dict_set "motif_reports" (PDict reps') df))).
  { intros ? ->. destruct completed; simpl.
    - rewrite dict_get_set_ne by done. apply dict_get_set_eq.
    - apply dict_get_set_eq. }
  exists reps'. split; [|split; [|split; [|split]]].
  - unfold family_reports, family_motif_reports, family_details. simpl.
    rewrite dict_get_set_eq. simpl. rewrite (Hdetails _ eq_refl). simpl.
    by rewrite dict_get_set_eq.
  - apply dict_get_set_eq.
  - unfold reps'. rewrite dict_set_keys.
    assert (report_keys (PDict l) fam = reps.*1) as ->; [|done].
    unfold report_keys, family_reports, family_motif_reports, family_details.
    simpl. destruct (Py.dict_get fam l) as [entry|]; simpl.
    + subst entry. simpl. rewrite Hef. simpl.
      destruct (Py.dict_get "motif_reports" df) as [mr|]; simpl;
        [by subst|by injection Hdf as <-].
    + injection Hentry as <-. simpl in Hef. injection Hef as <-.
      simpl in Hdf. by injection Hdf as <-.
  - apply all_completed_Forall in Hall. rewrite <- Hall.
    unfold family_status. simpl. rewrite dict_get_set_eq. simpl.
    destruct completed; simpl.
    + rewrite dict_get_set_eq. simpl. split; auto.
    + unfold ef'. rewrite dict_get_set_ne by done.
      destruct (Py.dict_get fam l) as [entry|]; simpl.
      * subst entry. simpl. split; [by right|]. by intros [?|?].
      * injection Hentry as <-. simpl. split; [done|]. by intros [?|?].
  - intros other Hne. simpl. by rewrite dict_get_set_ne.
Qed.

(** C1. The recorder called for AraC / E. coli (completed) on an empty
    store persists the family AraC/XylS as ["completed"]; called next for
    XylS / P. putida with the status of a failed download, it leaves the
    family ["completed"] although the item just recorded under it has the
    status ["no_data"]. *)
Theorem completed_family_with_failed_item :
  family_status (stored_progress arac_recorded) arac_xyls = Some "completed" ∧
  family_status (stored_progress xyls_failure_recorded) arac_xyls = Some "completed" ∧
  recorded_status (stored_progress xyls_failure_recorded) arac_xyls
    "XylS_Pseudomonas_putida" = Some "no_data".
Proof. vm_compute. done. Qed.

(** What does hold of the family status after every call of the recorder
    that writes the progress file: in the value written it is
    ["completed"] exactly when every recorded item of the family is
    completed or the status was ["completed"] before the call. *)
Lemma family_status_after_record E w tf sp st d written :
  let fam := owning_family tf d in
  written ∈ progress_writes
              (trace_since w (after E (save_motif_progress tf sp st d) w)) →
  ∃ reps,
    family_reports written fam = Some reps ∧
    (family_status written fam = Some "completed" ↔
       Forall (λ report, report_field "status" report = Some "completed") reps.*2
       ∨ family_status (stored_progress w) fam = Some "completed").
Proof.
  intros fam (t1 & t2 & Hrec)%written_by_save_motif_progress.
  destruct (record_motif_facts _ _ _ _ _ _ _ _ Hrec) as (reps & ? & _ & _ & ? & _).
  by exists reps.
Qed.

(** The owning family is the ["tf_family"] of the details when they carry
    one, and the individual TF name otherwise. *)
Lemma owning_family_spec tf d :
  owning_family tf d =
    match d with Some (Details (Some tf_family) _) => tf_family | _ => tf end.
Proof.
  destruct d as [[[tf_family|] m]|]; unfold owning_family, details_truthy; simpl;
    try case_bool_decide as Hd; done.
Qed.

(** C4, as stated, fails: recorded for the individual TF AraC of the family
    AraC/XylS, the item is not stored under the family name joined to the
    species name, but under the individual TF name joined to it. *)
Lemma key_uses_individual_tf_name :
  recorded_status (stored_progress arac_recorded) arac_xyls
    (Str.replace_space (arac_xyls +:+ "_" +:+ "Escherichia coli")) = None
  ∧ recorded_status (stored_progress arac_recorded) arac_xyls
      "AraC_Escherichia_coli" = Some "completed".
Proof. vm_compute. done. Qed.

(** C4, amended. In every value the recorder writes, the item is stored, in
    the record of the owning family, under the key made of the individual
    TF name, ["_"] and the species name with every space replaced by
    ["_"]; the record holds the names and the status of the call; and the
    keys of the family are those it had before, followed by this one when
    it is new, so that recording the same pair of names again replaces the
    record and adds no key. The owning family is the ["tf_family"] of the
    details when they carry one, and the individual TF name otherwise. *)
Theorem motif_key_of_record E w tf sp st d written :
  let fam := owning_family tf d in
  let key := Str.replace_space (tf +:+ "_" +:+ sp) in
  let w' := after E (save_motif_progress tf sp st d) w in
  let keys := report_keys (stored_progress w) fam in
  written ∈ progress_writes (trace_since w w') →
  ∃ r,
    fam = match d with Some (Details (Some tf_family) _) => tf_family | _ => tf end ∧
    recorded_report written fam key = Some r ∧
    report_field "tf_name" r = Some tf ∧
    report_field "species_name" r = Some sp ∧
    report_field "status" r = Some st ∧
    report_keys written fam = if decide (key ∈ keys) then keys else keys ++ [key].
Proof.
  intros fam key w' keys (t1 & t2 & Hrec)%written_by_save_motif_progress.
  destruct (record_motif_facts _ _ _ _ _ _ _ _ Hrec)
    as (reps & Hreps & Hkey & Hkeys & _ & _).
  subst fam key keys. cbn zeta in Hreps, Hkey, Hkeys.
  exists (new_report tf sp st t2 d). split; [apply owning_family_spec|].
  unfold recorded_report, report_keys at 1.
  rewrite Hreps. simpl. split; [exact Hkey|].
  repeat (split; [done|]). exact Hkeys.
Qed.

Lemma motif_key_of_record_witness :
  ∃ r,
    owning_family "AraC" (loop_details arac_xyls "downloaded" (JBool true))
      = arac_xyls ∧
    recorded_report (stored_progress arac_recorded) arac_xyls
      "AraC_Escherichia_coli" = Some r ∧
    report_field "tf_name" r = Some "AraC" ∧
    report_field "species_name" r = Some "Escherichia coli" ∧
    report_field "status" r = Some "completed" ∧
    report_keys (stored_progress arac_recorded) arac_xyls = ["AraC_Escherichia_coli"].
Proof.
  apply (motif_key_of_record quiet_env fresh_world "AraC" "Escherichia coli"
           "completed" (loop_details arac_xyls "downloaded" (JBool true))
           (stored_progress arac_recorded)).
  vm_compute. left.
Defined.

(** Conversely, a value of that shape takes the record. *)
Lemma record_motif_ok l tf sp st d t1 t2 ef df reps completed :
  let fam := owning_family tf d in
  match Py.dict_get fam l with
  | Some entry => entry
  | None => new_family_entry t1
  end = PDict ef →
  Py.dict_get "details" ef = Some (PDict df) →
  match Py.dict_get "motif_reports" df with
  | Some motif_reports => motif_reports
  | None => PDict []
  end = PDict reps →
  all_completed (Py.dict_set (motif_key tf sp) (new_report tf sp st t2 d) reps).*2
    = Ok completed →
  ∃ pd', record_motif (PDict l) tf sp st d t1 t2 = Ok pd'.
Proof.
  intros fam Hentry Hef Hdf Hall. unfold record_motif. cbn zeta. fold fam.
  revert Hall. generalize (motif_key tf sp) (new_report tf sp st t2 d).
  intros key report Hall.
  assert (Htail : ∀ l1, Py.dict_get fam l1 = Some (PDict ef) →
    ∃ pd', (progress_data ← ensure_motif_reports fam (PDict l1);
            progress_data ← update_motif_report fam key report progress_data;
            update_family_status fam progress_data) = Ok pd').
  { intros l1 Hl1.
    unfold ensure_motif_reports, family_details. simpl. rewrite Hl1. simpl.
    rewrite Hef. simpl.
    destruct (Py.dict_get "motif_reports" df) as [mr|] eqn:Hmr.
    - subst mr. rewrite bool_decide_eq_true_2 by eauto. simpl.
      unfold update_motif_report, family_motif_reports, family_details. simpl.
      rewrite Hl1. simpl. rewrite Hef. simpl. rewrite Hmr. simpl.
      rewrite (set_family_motif_reports_eq _ _ _ _ _ Hl1 Hef). simpl.
      unfold update_family_status, family_motif_reports, family_details. simpl.
      rewrite !dict_get_set_eq. simpl. rewrite !dict_get_set_eq. simpl.
      rewrite !dict_get_set_eq. simpl. rewrite Hall. simpl.
      destruct completed; [|eauto].
      unfold set_family_status. simpl. rewrite dict_get_set_eq. simpl. eauto.
    - injection Hdf as <-.
      rewrite bool_decide_eq_false_2 by (by intros [? ?]). simpl.
      rewrite (set_family_motif_reports_eq _ _ _ _ _ Hl1 Hef). simpl.
      unfold update_motif_report, family_motif_reports, family_details. simpl.
      rewrite !dict_get_set_eq. simpl. rewrite !dict_get_set_eq. simpl.
      rewrite !dict_get_set_eq. simpl.
      unfold set_family_motif_reports. simpl.
      rewrite !dict_get_set_eq. simpl. rewrite !dict_get_set_eq. simpl.
      unfold update_family_status, family_motif_reports, family_details. simpl.
      rewrite !dict_get_set_eq. simpl. rewrite !dict_get_set_eq. simpl.
      rewrite !dict_get_set_eq. simpl. rewrite !dict_set_set.
      simpl in Hall. rewrite Hall. simpl.
      destruct completed; [|eauto].
      unfold set_family_status. simpl. rewrite dict_get_set_eq. simpl. eauto. }
  simpl. destruct (Py.dict_get fam l) as [entry|] eqn:Hl.
  - subst entry. rewrite bool_decide_eq_true_2 by eauto. simpl. by apply Htail.
  - rewrite bool_decide_eq_false_2 by (by intros [? ?]). simpl.
    apply Htail. rewrite dict_get_set_eq. by rewrite Hentry.
Qed.

(** ** Remaining work *)


(** The discovery order is kept. *)
Lemma remaining_sublist completed all : sublist (remaining completed all) all.
Proof. apply sublist_filter. Qed.

Lemma remaining_A_C :
  remaining {["A"; "C"]} ["A"; "B"; "C"; "D"] = ["B"; "D"].
Proof. vm_compute. done. Qed.


(** Whenever something was discovered, and the progress data are those of
    a first run or there are none, [get_resume_summary] returns the
    remaining names. *)
Lemma get_resume_summary_nonempty completed all progress :
  all ≠ [] → progress = None ∨ progress = Some (PDict []) →
  get_resume_summary completed all progress = Ok (remaining completed all).
Proof.
  intros Hne Hprogress. unfold get_resume_summary, true_div.
  destruct (has_history _ _); [|done].
  destruct all; [done|]. by destruct Hprogress as [-> | ->].
Qed.

(** C5. With a completed name on the ledger and nothing discovered,
    [get_resume_summary] does not return the empty list: the percentage of
    the resume summary divides by the number of discovered names. *)
Theorem get_resume_summary_empty_discovery :
  get_resume_summary {["A"]} [] None = Raise ZeroDivisionError.
Proof. vm_compute. done. Qed.

(** ** Family candidates *)

Lemma rstrip_last s c : last_char (Str.rstrip s) = Some c → Str.is_space c = false.
Proof.
  induction s as [|a s IH]; simpl; [done|].
  destruct (Str.rstrip s) as [|b r] eqn:Hr.
  - destruct (Str.is_space a) eqn:Ha; simpl; [done|]. by intros [= <-].
  - simpl. simpl in IH. exact IH.
Qed.

Lemma drop_final_newline_id s :
  (∀ c, last_char s = Some c → Str.is_space c = false) → drop_final_newline s = s.
Proof.
  induction s as [|a s IH]; simpl; [done|]. intros Hlast.
  destruct s as [|b s].
  - destruct (Str.code a =? 10)%N eqn:Ha; [|done].
    specialize (Hlast a eq_refl). apply N.eqb_eq in Ha.
    unfold Str.is_space, Str.in_range in Hlast. rewrite Ha in Hlast. done.
  - f_equal. apply IH. intros c Hc. apply Hlast. exact Hc.
Qed.

(** On stripped text the regular expression is the shape predicate. *)
Lemma re_match_stripped raw :
  re_match_tf_name (Str.strip raw) = true ↔ tf_name_shape (Str.strip raw).
Proof.
  pose proof (rstrip_last (Str.lstrip raw)) as Hlast. fold (Str.strip raw) in Hlast.
  unfold re_match_tf_name, tf_name_shape. destruct (Str.strip raw) as [|c rest].
  { split; [done|]. by intros (c & rest & ? & _). }
  rewrite drop_final_newline_id.
  2:{ intros a Ha. apply Hlast. destruct rest; [done|exact Ha]. }
  rewrite !andb_true_iff, !Nat.leb_le. split.
  - intros [[[? ?] ?] ?]. eauto 10.
  - intros (c' & rest' & Heq & ? & [? ?] & ?). by injection Heq as <- <-.
Qed.

Lemma is_tf_link_text_stripped raw :
  is_tf_link_text (Str.strip raw) = true ↔
    (2 ≤ String.length (Str.strip raw) ≤ 20)%nat
    ∧ (Str.lower (Str.strip raw) ∉ skip_words)
    ∧ tf_name_shape (Str.strip raw).
Proof.
  unfold is_tf_link_text. rewrite <- re_match_stripped.
  destruct (String.length (Str.strip raw) <? 2)%nat eqn:H2; simpl.
  { apply Nat.ltb_lt in H2. split; [done|]. lia. }
  destruct (20 <? String.length (Str.strip raw))%nat eqn:H20; simpl.
  { apply Nat.ltb_lt in H20. split; [done|]. lia. }
  apply Nat.ltb_ge in H2, H20.
  case_bool_decide as Hskip; [split; [done|tauto]|tauto].
Qed.

(** C9, as stated, fails: a letter followed by 16 further letters passes
    the three tests as the claim words them and is excluded by the code. *)
Lemma spec_accepts_longer_names :
  let name := "Aaaaaaaaaaaaaaaaa" in
  Str.strip name = name ∧ String.length name = 17%nat ∧
  spec_accepts name = true ∧ is_tf_link_text name = false ∧
  _get_current_tf_links (Ok [Link (Ok name) (Ok None)]) = [].
Proof. vm_compute. done. Qed.

(** C9, amended. A link is kept as a family candidate exactly when its
    text and its target can be read and the stripped text is 2 to 20
    characters long, is not a stop word once lowercased, and is a letter
    followed by 1 to 15 characters, each a letter, a digit or a slash. *)
Theorem tf_links_are_the_accepted_candidates (all_links : list link) (t : tf_link) :
  t ∈ _get_current_tf_links (Ok all_links) ↔
  ∃ l text href,
    l ∈ all_links ∧ link_text l = Ok text ∧ link_href l = Ok href ∧
    t = TfLink (Str.strip text) l href ∧
    (2 ≤ String.length (Str.strip text) ≤ 20)%nat ∧
    (Str.lower (Str.strip text) ∉ skip_words) ∧
    tf_name_shape (Str.strip text).
Proof.
  unfold _get_current_tf_links. rewrite list_elem_of_omap. split.
  - intros (l & Hl & Ht). unfold tf_link_of in Ht.
    destruct (link_text l) as [text|] eqn:Htext; simpl in Ht; [|done].
    destruct (link_href l) as [href|] eqn:Hhref; simpl in Ht; [|done].
    destruct (is_tf_link_text (Str.strip text)) eqn:Hok; [|done].
    injection Ht as <-. apply is_tf_link_text_stripped in Hok.
    exists l, text, href. tauto.
  - intros (l & text & href & Hl & Htext & Hhref & -> & Hconds).
    exists l. split; [done|]. unfold tf_link_of. rewrite Htext, Hhref. simpl.
    apply is_tf_link_text_stripped in Hconds. by rewrite Hconds.
Qed.

(** ** Artifact names *)

Lemma append_inj_l s a b : s +:+ a = s +:+ b → a = b.
Proof. induction s as [|c s IH]; simpl; [done|]. intros [= H]. auto. Qed.

Lemma length_append a b :
  String.length (a +:+ b) = (String.length a + String.length b)%nat.
Proof. induction a as [|c a IH]; simpl; [done|]. by rewrite IH. Qed.

Lemma append_inj_r a b t : a +:+ t = b +:+ t → a = b.
Proof.
  revert b. induction a as [|c a IH]; intros [|c' b] H.
  - done.
  - apply (f_equal String.length) in H. rewrite !length_append in H. simpl in H. lia.
  - apply (f_equal String.length) in H. rewrite !length_append in H. simpl in H. lia.
  - simpl in H. injection H as -> H. f_equal. by apply IH.
Qed.

Lemma psfm_filename_eq_iff v c1 c2 :
  psfm_filename v c1 = psfm_filename v c2 ↔ content_hash c1 = content_hash c2.
Proof.
  unfold psfm_filename. split.
  - intros H. do 11 apply append_inj_l in H. by apply append_inj_r in H.
  - by intros ->.
Qed.

(** The MD5 of the standard test vectors. *)
Lemma md5_test_vectors :
  MD5.hexdigest (encode "") = "d41d8cd98f00b204e9800998ecf8427e" ∧
  MD5.hexdigest (encode "abc") = "900150983cd24fb0d6963f7d28e17f72" ∧
  MD5.hexdigest (encode "message digest") = "f96b697d7cb7938d525a2f31aaf161d0".
Proof. vm_compute. done. Qed.

(** C7, as stated, fails: two different contents with the same first eight
    digits of MD5 ([929fa733]) get the same file name for the same work
    item. *)
Lemma colliding_contents :
  "matrix_65933" ≠ "matrix_72942" ∧
  psfm_filename v_arac "matrix_65933" = psfm_filename v_arac "matrix_72942".
Proof. split; [done|]. vm_compute. done. Qed.

(** C7, amended. The file name is a function of the work item and of the
    content, so the same content gives the same name; and for one work item
    two contents get the same name exactly when the first eight hexadecimal
    digits of their MD5 agree, a different name exactly when they differ. *)
Theorem psfm_filename_deterministic v c1 c2 :
  (psfm_filename v c1 = psfm_filename v c2 ↔ content_hash c1 = content_hash c2) ∧
  (psfm_filename v c1 ≠ psfm_filename v c2 ↔ content_hash c1 ≠ content_hash c2).
Proof. by rewrite psfm_filename_eq_iff. Qed.

Lemma forallb_append p a b :
  Str.forallb p (a +:+ b) = Str.forallb p a && Str.forallb p b.
Proof. induction a as [|c a IH]; simpl; [done|]. by rewrite IH, andb_assoc. Qed.

Lemma forallb_map p f s : Str.forallb p (Str.map f s) = Str.forallb (λ c, p (f c)) s.
Proof. induction s as [|c s IH]; simpl; [done|]. by rewrite IH. Qed.

Lemma forallb_true p s : (∀ c, p c = true) → Str.forallb p s = true.
Proof. intros Hp. induction s as [|c s IH]; simpl; [done|]. by rewrite Hp, IH. Qed.

Lemma forallb_impl (p q : ascii → bool) s :
  (∀ c, p c = true → q c = true) → Str.forallb p s = true → Str.forallb q s = true.
Proof.
  intros Hpq. induction s as [|c s IH]; simpl; [done|].
  rewrite !andb_true_iff. intros [? ?]. auto.
Qed.

Lemma forallb_substring p n m s :
  Str.forallb p s = true → Str.forallb p (String.substring n m s) = true.
Proof.
  revert n m. induction s as [|c s IH]; intros n m; simpl.
  - by destruct n, m.
  - rewrite andb_true_iff. intros [Hc Hs]. destruct n as [|n].
    + destruct m as [|m]; simpl; [done|]. by rewrite Hc, IH.
    + by apply IH.
Qed.

Ltac by_cases_on_char c :=
  destruct c as [[] [] [] [] [] [] [] []]; vm_compute; done.

Lemma name_char_not_separator c : name_char c = true → not_separator c = true.
Proof. by_cases_on_char c. Qed.

Lemma species_char_not_separator c : species_char c = true → not_separator c = true.
Proof. by_cases_on_char c. Qed.

Lemma is_decimal_not_separator c : Str.is_decimal c = true → not_separator c = true.
Proof. by_cases_on_char c. Qed.

Lemma safe_name_chars s : Str.forallb name_char (safe_name s) = true.
Proof.
  unfold safe_name. rewrite forallb_map. apply forallb_true. intros c.
  fold (name_char c). by destruct (name_char c) eqn:Hc.
Qed.

Lemma safe_species_chars s : Str.forallb species_char (safe_species s) = true.
Proof.
  unfold safe_species, Str.replace_space. rewrite !forallb_map.
  apply forallb_true. intros c. by_cases_on_char c.
Qed.

Lemma string_of_uint_digits d :
  Str.forallb Str.is_decimal (DecimalString.NilEmpty.string_of_uint d) = true.
Proof. induction d; simpl; done. Qed.

Lemma decimal_digits n : Str.forallb Str.is_decimal (decimal n) = true.
Proof.
  unfold decimal, DecimalString.NilZero.string_of_uint.
  destruct (N.to_uint n); try done; apply (string_of_uint_digits (_ _)).
Qed.

Lemma hex_digit_not_separator n : not_separator (MD5.hex_digit n) = true.
Proof.
  unfold MD5.hex_digit. generalize (Z.to_nat n). intros k.
  do 17 (destruct k as [|k]; [vm_compute; done|]). vm_compute. done.
Qed.

Lemma hex_not_separator bs : Str.forallb not_separator (MD5.hex bs) = true.
Proof.
  induction bs as [|b bs IH]; simpl; [done|].
  by rewrite !hex_digit_not_separator, IH.
Qed.

Lemma content_hash_not_separator c : Str.forallb not_separator (content_hash c) = true.
Proof. apply forallb_substring, hex_not_separator. Qed.

Lemma psfm_filename_not_separator v c :
  Str.forallb not_separator (psfm_filename v c) = true.
Proof.
  unfold psfm_filename. rewrite !forallb_append.
  rewrite (forallb_impl _ _ _ name_char_not_separator (safe_name_chars _)).
  rewrite (forallb_impl _ _ _ name_char_not_separator (safe_name_chars _)).
  rewrite (forallb_impl _ _ _ species_char_not_separator (safe_species_chars _)).
  rewrite !(forallb_impl _ _ _ is_decimal_not_separator (decimal_digits _)).
  rewrite content_hash_not_separator. done.
Qed.

Lemma metadata_filename_not_separator v c :
  Str.forallb not_separator (metadata_filename (psfm_filename v c)) = true.
Proof.
  unfold metadata_filename. by rewrite forallb_append, psfm_filename_not_separator.
Qed.

(** ** The operations a program can perform *)

Lemma ops_in_bind P {A B} (p : prog A) (f : A → prog B) :
  ops_in P p → (∀ a, ops_in P (f a)) → ops_in P (p ≫= f).
Proof.
  intros Hp Hf. unfold mbind, prog_bind.
  induction Hp as [a|e|X c k Hc Hk IH]; simpl; [apply Hf|constructor|].
  constructor; [done|]. apply IH.
Qed.

Lemma ops_in_try_catch P {A} (p : prog A) h :
  ops_in P p → (∀ e, ops_in P (h e)) → ops_in P (try_catch p h).
Proof.
  intros Hp Hh.
  induction Hp as [a|e|X c k Hc Hk IH]; simpl; [constructor|apply Hh|].
  constructor; [done|]. apply IH.
Qed.

Lemma ops_in_call P {X} (c : op X) : P (Ev c) → ops_in P (call c).
Proof. intros Hc. constructor; [done|]. intros [x|e]; constructor. Qed.

Lemma ops_in_mret P {A} (a : A) : ops_in P (mret a).
Proof. constructor. Qed.

Lemma ops_in_lift P {A} (m : exc A) : ops_in P (lift m).
Proof. destruct m; constructor. Qed.

Lemma ops_in_except_no_such P {A} (p h : prog A) :
  ops_in P p → ops_in P h → ops_in P (except_no_such p h).
Proof.
  intros Hp Hh. apply ops_in_try_catch; [done|]. intros []; (done || constructor).
Qed.

Create HintDb ops.
#[export] Hint Resolve ops_in_mret : ops.
#[export] Hint Constructors ops_in : ops.

(** One step through the syntax of a program; [tac] proves that an
    operation is allowed. *)
Ltac ops_step tac :=
  match goal with
  | |- ops_in _ (_ ≫= _) => apply ops_in_bind; [|intros]
  | |- ops_in _ (try_catch _ _) => apply ops_in_try_catch; [|intros]
  | |- ops_in _ (except_no_such _ _) => apply ops_in_except_no_such
  | |- ops_in _ (call _) => apply ops_in_call; tac
  | |- ops_in _ (lift _) => apply ops_in_lift
  | |- ops_in _ (mret _) => apply ops_in_mret
  | |- ops_in _ (Ret _) => constructor
  | |- ops_in _ (Throw _) => constructor
  | |- ops_in _ (match ?x with _ => _ end) => destruct x
  | |- ops_in _ (if ?b then _ else _) => destruct b
  end.

Ltac ops := repeat ops_step ltac:(reflexivity); eauto with ops.

(** C10, as stated, fails: a tab in a species name is not a word character,
    is neither [-] nor [_], and is not replaced by the sanitization. *)
Lemma species_tab_is_kept :
  let tab := "009"%char in
  let species_name := String "E" (String tab "coli") in
  safe_species species_name = species_name ∧
  Str.is_word tab = false ∧ tab ≠ "-"%char ∧ tab ≠ "_"%char.
Proof. vm_compute. done. Qed.

(** C10, amended. Whatever the work item and the content, the name of the
    artifact and the name of its metadata file contain neither [/] nor
    [\], and these are the only names [save_psfm_content] writes under,
    one in each output directory. The sanitized family and TF names are
    made of word characters, [-] and [_] only; the sanitized species name
    of these and of whitespace other than the space, which is kept. *)
Theorem artifact_names_have_no_separator v psfm_content :
  let filename := psfm_filename v psfm_content in
  Str.forallb not_separator filename = true ∧
  Str.forallb not_separator (metadata_filename filename) = true ∧
  ops_in flat_write (save_psfm_content v psfm_content) ∧
  Str.forallb name_char (safe_name (vl_tf_family v)) = true ∧
  Str.forallb name_char (safe_name (vl_tf_name v)) = true ∧
  Str.forallb species_char (safe_species (vl_species_name v)) = true.
Proof.
  intros filename. subst filename.
  split; [apply psfm_filename_not_separator|].
  split; [apply metadata_filename_not_separator|].
  split; [|auto using safe_name_chars, safe_species_chars].
  unfold save_psfm_content.
  repeat ops_step ltac:(first [ exact I
                              | apply psfm_filename_not_separator
                              | apply metadata_filename_not_separator ]).
Qed.

(** ** Programs that leave the checkpoint files alone *)

Lemma perform_browser_only E {X} (c : op X) tr :
  browser_only (Ev c) →
  ∃ r, ∀ cf pf, perform E c (World cf pf tr) = (World cf pf (tr ++ [Ev c]), r).
Proof.
  intros Hc. exists (perform E c (World Absent Absent tr)).2. intros cf pf.
  destruct c; try discriminate Hc; reflexivity.
Qed.

(** Such a program performs the same operations and returns the same
    result whatever the checkpoint files hold, and leaves them as they are. *)
Lemma run_browser_only E {A} (p : prog A) tr :
  ops_in browser_only p →
  ∃ new r, Forall browser_only new ∧
    ∀ cf pf, run E p (World cf pf tr) = (World cf pf (tr ++ new), r).
Proof.
  intros Hp. revert tr.
  induction Hp as [a|e|X c k Hc Hk IH]; intros tr.
  - exists [], (Ok a). split; [constructor|]. intros. by rewrite app_nil_r.
  - exists [], (Raise e). split; [constructor|]. intros. by rewrite app_nil_r.
  - destruct (perform_browser_only E c tr Hc) as [r Hr].
    destruct (IH r (tr ++ [Ev c])) as (new & res & Hnew & Hrun).
    exists (Ev c :: new), res. split; [by constructor|].
    intros cf pf. simpl. rewrite Hr, Hrun. by rewrite <- app_assoc.
Qed.

Lemma save_psfm_content_ops v c : ops_in browser_only (save_psfm_content v c).
Proof. unfold save_psfm_content. ops. Qed.

Lemma find_psfm_link_by_text_ops ps : ops_in browser_only (find_psfm_link_by_text ps).
Proof. induction ps; cbn [find_psfm_link_by_text]; ops. Qed.

Lemma find_psfm_link_in_ops ls : ops_in browser_only (find_psfm_link_in ls).
Proof. induction ls; cbn [find_psfm_link_in]; ops. Qed.

Lemma find_psfm_cell_ops : ops_in browser_only find_psfm_cell.
Proof. unfold find_psfm_cell. ops. Qed.

Lemma elem_label_ops e : ops_in browser_only (elem_label e).
Proof. unfold elem_label. ops. Qed.

Lemma pick_clickable_ops es : ops_in browser_only (pick_clickable es).
Proof. induction es; cbn [pick_clickable]; ops. apply elem_label_ops. Qed.

Lemma click_download_ops e : ops_in browser_only (click_download e).
Proof. unfold click_download. ops. apply pick_clickable_ops. Qed.

Lemma collect_download_ops v f : ops_in browser_only (collect_download v f).
Proof. unfold collect_download. ops. apply save_psfm_content_ops. Qed.

Lemma debug_links_ops ls : ops_in browser_only (debug_links ls).
Proof. induction ls; cbn [debug_links]; ops. Qed.

Lemma debug_elements_ops es : ops_in browser_only (debug_elements es).
Proof. induction es; cbn [debug_elements]; ops. Qed.

#[export] Hint Resolve find_psfm_link_by_text_ops find_psfm_link_in_ops
  find_psfm_cell_ops click_download_ops collect_download_ops debug_links_ops
  debug_elements_ops : ops.

Lemma download_psfm_ops v : ops_in browser_only (download_psfm v).
Proof. unfold download_psfm. ops. Qed.

Lemma process_motif_report_page_ops v :
  ops_in browser_only (process_motif_report_page v).
Proof. unfold process_motif_report_page. ops. apply download_psfm_ops. Qed.

Lemma row_names_ops tf l : ops_in browser_only (row_names tf l).
Proof. unfold row_names. ops. Qed.

Lemma view_link_of_ops tf l : ops_in browser_only (view_link_of tf l).
Proof. unfold view_link_of. ops. apply row_names_ops. Qed.

Lemma discover_view_links_ops tf ls : ops_in browser_only (discover_view_links tf ls).
Proof. induction ls; cbn [discover_view_links]; ops. apply view_link_of_ops. Qed.

(** The page processing always returns a classification. *)
Lemma run_process_motif_report_page E v cf pf tr :
  ∃ new result,
    Forall browser_only new ∧
    run E (process_motif_report_page v) (World cf pf tr) =
      (World cf pf (tr ++ new), Ok result).
Proof.
  destruct (run_browser_only E (process_motif_report_page v) tr
              (process_motif_report_page_ops v)) as (new & r & Hnew & Hrun).
  destruct (run_catch_all_ok E
    (page_source ← call PageSource;
     if negb (has_export page_source) then Ret "no_export" else download_psfm v)
    "failed" (World cf pf tr)) as [result Hres].
  fold (process_motif_report_page v) in Hres. rewrite Hrun in Hres. simpl in Hres.
  subst r. eauto.
Qed.

(** ** The export check *)

(** C6. When the page source lacks "Export data" or lacks
    "csrfmiddlewaretoken", [process_motif_report_page] returns
    ["no_export"] and reading the page source is the only operation it
    performs: nothing is located, clicked or waited for. Conversely, when
    it performs anything besides reading the page source, the page source
    was obtained and holds both markers. *)
Theorem no_export_without_markers E w v :
  (∀ page_source,
     env_answer E string (w_trace w) PageSource = Ok page_source →
     Str.contains "Export data" page_source = false
     ∨ Str.contains "csrfmiddlewaretoken" page_source = false →
     run E (process_motif_report_page v) w =
       (World (w_completed w) (w_progress w) (w_trace w ++ [Ev PageSource]),
        Ok "no_export")) ∧
  (trace_since w (after E (process_motif_report_page v) w) ≠ [Ev PageSource] →
     ∃ page_source,
       env_answer E string (w_trace w) PageSource = Ok page_source ∧
       Str.contains "Export data" page_source = true ∧
       Str.contains "csrfmiddlewaretoken" page_source = true).
Proof.
  assert (Hgate : ∀ page_source,
    env_answer E string (w_trace w) PageSource = Ok page_source →
    has_export page_source = false →
    run E (process_motif_report_page v) w =
      (World (w_completed w) (w_progress w) (w_trace w ++ [Ev PageSource]),
       Ok "no_export")).
  { intros src Hsrc Hno. unfold process_motif_report_page.
    rewrite run_try_catch, run_bind, run_call. cbn [perform].
    rewrite Hsrc, Hno. done. }
  split.
  - intros src Hsrc Habsent. apply (Hgate src); [done|]. unfold has_export.
    destruct Habsent as [-> | ->]; [done|apply andb_false_r].
  - intros Hmore. destruct (env_answer E string (w_trace w) PageSource)
      as [src|e] eqn:Hsrc.
    + destruct (has_export src) eqn:Hexp.
      * exists src. apply andb_true_iff in Hexp. tauto.
      * exfalso. apply Hmore. unfold after.
        rewrite (Hgate src eq_refl Hexp). apply trace_since_app.
    + exfalso. apply Hmore. unfold after, process_motif_report_page.
      rewrite run_try_catch, run_bind, run_call. cbn [perform].
      rewrite Hsrc. apply trace_since_app.
Qed.

Lemma no_export_without_markers_witness :
  run page_without_export (process_motif_report_page v_arac) fresh_world =
    (World Absent Absent [Ev PageSource], Ok "no_export").
Proof.
  apply (proj1 (no_export_without_markers page_without_export fresh_world v_arac)
           "<form><input name='csrfmiddlewaretoken'></form>").
  - reflexivity.
  - left. reflexivity.
Defined.

(** ** Work-item discovery *)

(** C2, as stated, fails: with AraC / E. coli recorded as completed by a
    first run, the discovery of the second run yields both work items of
    the family, and the second run navigates to the report page of
    AraC / E. coli again before that of XylS / P. putida. *)
Lemma completed_item_is_attempted_again :
  recorded_status (stored_progress first_run) arac_xyls
    (motif_key "AraC" "Escherichia coli") = Some "completed" ∧
  (run working_site (discover_view_links arac_xyls [1; 2]%N) (restart first_run)).2
    = Ok [v_arac; v_xyls] ∧
  attempted (w_trace second_run) = [href_arac; href_xyls].
Proof. vm_compute. done. Qed.

(** C2, amended. The per-family discovery does not depend on the progress
    record: on the same page it performs the same operations and yields the
    same work items whatever the two checkpoint files hold. *)
Theorem discovery_ignores_progress E tf all_links cf1 pf1 cf2 pf2 tr :
  let r1 := run E (discover_view_links tf all_links) (World cf1 pf1 tr) in
  let r2 := run E (discover_view_links tf all_links) (World cf2 pf2 tr) in
  r1.2 = r2.2 ∧ w_trace r1.1 = w_trace r2.1.
Proof.
  destruct (run_browser_only E (discover_view_links tf all_links) tr
              (discover_view_links_ops tf all_links)) as (new & r & _ & Hrun).
  cbn zeta. by rewrite !Hrun.
Qed.

(** ** Outcomes of programs, whatever the answers *)

Lemma wp_mono {A} (p : prog A) tr (Q Q' : list event → exc A → Prop) :
  (∀ tr' r, Q tr' r → Q' tr' r) → wp p tr Q → wp p tr Q'.
Proof.
  intros HQ. revert tr. induction p as [a|e|X c k IH]; simpl; intros tr; [auto|auto|].
  intros H r Hr. by apply IH, H.
Qed.

Lemma wp_bind {A B} (p : prog A) (f : A → prog B) tr Q :
  wp p tr (λ tr' r, match r with
                    | Ok a => wp (f a) tr' Q
                    | Raise e => Q tr' (Raise e)
                    end) →
  wp (p ≫= f) tr Q.
Proof.
  unfold mbind, prog_bind. revert tr.
  induction p as [a|e|X c k IH]; simpl; intros tr; [auto|auto|].
  intros H r Hr. by apply IH, H.
Qed.

Lemma wp_try_catch {A} (p : prog A) h tr Q :
  wp p tr (λ tr' r, match r with
                    | Ok a => Q tr' (Ok a)
                    | Raise e => wp (h e) tr' Q
                    end) →
  wp (try_catch p h) tr Q.
Proof.
  revert tr. induction p as [a|e|X c k IH]; simpl; intros tr; [auto|auto|].
  intros H r Hr. by apply IH, H.
Qed.

Lemma wp_call {X} (c : op X) tr (Q : list event → exc X → Prop) :
  (∀ r, can_answer c r → Q (tr ++ [Ev c]) r) → wp (call c) tr Q.
Proof. intros H [x|e] Hr; simpl; by apply H. Qed.

(** Any program only adds operations. *)
Lemma wp_extends {A} (p : prog A) tr :
  wp p tr (λ tr' _, ∃ more, tr' = tr ++ more).
Proof.
  revert tr. induction p as [a|e|X c k IH]; simpl; intros tr.
  - exists []. by rewrite app_nil_r.
  - exists []. by rewrite app_nil_r.
  - intros r _. eapply wp_mono; [|apply IH].
    simpl. intros tr' _ [more ->]. exists (Ev c :: more). by rewrite <- app_assoc.
Qed.


Lemma w_trace_perform E {X} (c : op X) w :
  w_trace (perform E c w).1 = w_trace w ++ [Ev c].
Proof. destruct c; reflexivity. Qed.

Lemma can_answer_perform E {X} (c : op X) w : can_answer c (perform E c w).2.
Proof. destruct c; simpl; eauto. Qed.

Lemma wp_run_gen {A} E (p : prog A) w tr0 new Q :
  w_trace w = tr0 ++ new → wp p new Q →
  ∃ new', w_trace (run E p w).1 = tr0 ++ new' ∧ Q new' (run E p w).2.
Proof.
  revert w new. induction p as [a|e|X c k IH]; simpl; intros w new Hw Hwp; eauto.
  pose proof (w_trace_perform E c w) as Htr.
  pose proof (can_answer_perform E c w) as Hans.
  destruct (perform E c w) as [w' r]. simpl in Htr, Hans.
  apply (IH r w' (new ++ [Ev c])); [|by apply Hwp].
  by rewrite Htr, Hw, <- app_assoc.
Qed.

Lemma wp_run {A} E (p : prog A) w Q :
  wp p [] Q → Q (trace_since w (after E p w)) (run E p w).2.
Proof.
  intros Hwp.
  destruct (wp_run_gen E p w (w_trace w) [] Q) as (new & Htr & HQ); [by rewrite app_nil_r|done|].
  unfold trace_since, after. rewrite Htr, drop_app_length. done.
Qed.


Lemma wp_bind_spec {A B} (p : prog A) (f : A → prog B) tr P Q :
  wp p tr P →
  (∀ tr' r, P tr' r → match r with
                       | Ok a => wp (f a) tr' Q
                       | Raise e => Q tr' (Raise e)
                       end) →
  wp (p ≫= f) tr Q.
Proof. intros Hp HP. apply wp_bind. by eapply wp_mono. Qed.


Lemma wp_bind_any {A B} (p : prog A) (f : A → prog B) tr Q :
  (∀ more r, match r with
             | Ok a => wp (f a) (tr ++ more) Q
             | Raise e => Q (tr ++ more) (Raise e)
             end) →
  wp (p ≫= f) tr Q.
Proof.
  intros H. eapply wp_bind_spec; [apply wp_extends|].
  simpl. intros tr' r [more ->]. apply H.
Qed.



Lemma wp_save_psfm_content v content tr Q :
  (∀ now url, Q (tr ++ save_events v content now url) (Ok "completed")) →
  (∀ more, Q (tr ++ more) (Ok "failed")) →
  wp (save_psfm_content v content) tr Q.
Proof.
  intros Hok Hfail. unfold save_psfm_content. cbn.
  intros [[]|e1] _; cbn; [|rewrite <- ?app_assoc; apply Hfail].
  intros [now|e2] _; cbn; [|rewrite <- ?app_assoc; apply Hfail].
  intros [url|e3] _; cbn; [|rewrite <- ?app_assoc; apply Hfail].
  intros [[]|e4] _; cbn; [|rewrite <- ?app_assoc; apply Hfail].
  rewrite <- ?app_assoc. apply Hok.
Qed.

Lemma artifact_saved_base v f raw now url more :
  (10 < String.length (Str.strip raw))%nat →
  artifact_saved v ([Ev WaitForDownload] ++ [Ev (ReadFile f)]
                      ++ save_events v (Str.strip raw) now url ++ more).
Proof. intros Hlen. by exists [], f, raw, now, url, more. Qed.

Lemma artifact_saved_app_l v pre tr :
  artifact_saved v tr → artifact_saved v (pre ++ tr).
Proof.
  intros (pre' & f & raw & now & url & post & -> & Hlen).
  exists (pre ++ pre'), f, raw, now, url, post. by rewrite <- app_assoc.
Qed.

Lemma artifact_saved_app_r v tr post :
  artifact_saved v tr → artifact_saved v (tr ++ post).
Proof.
  intros (pre & f & raw & now & url & post' & -> & Hlen).
  exists pre, f, raw, now, url, (post' ++ post).
  split; [|done]. by rewrite <- !app_assoc.
Qed.

Lemma wp_collect_download v f tr Q :
  (∀ raw now url more,
     (10 < String.length (Str.strip raw))%nat →
     Q (tr ++ [Ev (ReadFile f)] ++ save_events v (Str.strip raw) now url ++ more)
       (Ok "completed")) →
  (∀ more, Q (tr ++ more) (Ok "failed")) →
  wp (collect_download v f) tr Q.
Proof.
  intros Hok Hfail. unfold collect_download.
  apply wp_try_catch, wp_bind, wp_call. intros [raw|e] _; cbn beta iota.
  2:{ cbn. apply Hfail. }
  destruct (Str.nonempty (Str.strip raw) && (10 <? String.length (Str.strip raw))%nat)
    eqn:Hlen; [|cbn; apply Hfail].
  apply andb_true_iff in Hlen as [_ Hlen]. apply Nat.ltb_lt in Hlen.
  apply wp_bind, wp_save_psfm_content.
  - intros now url. apply wp_bind_any. intros more [[]|e]; cbn.
    + rewrite <- !app_assoc. by apply Hok.
    + rewrite <- !app_assoc. apply Hfail.
  - intros more. apply wp_bind_any. intros more' [[]|e]; cbn.
    + rewrite <- !app_assoc. apply Hfail.
    + rewrite <- !app_assoc. apply Hfail.
Qed.

Ltac any_step := apply wp_bind_any; intros ? [?|?]; cbn beta iota.
Ltac close_with H := cbn; rewrite <- ?app_assoc; apply H.

Lemma wp_download_psfm v tr Q :
  (∀ new, artifact_saved v new → Q (tr ++ new) (Ok "completed")) →
  (∀ more, Q (tr ++ more) (Ok "failed")) →
  (∀ more e, Q (tr ++ more) (Raise e)) →
  wp (download_psfm v) tr Q.
Proof.
  intros Hok Hfail Hraise. unfold download_psfm.
  any_step; [|apply Hraise].
  apply wp_try_catch.
  any_step; [|close_with Hfail].
  any_step; [|close_with Hfail].
  any_step; [|close_with Hfail].
  match goal with |- wp (match ?x with _ => _ end) _ _ => destruct x as [psfm_link|] end.
  - any_step; [|close_with Hfail].
    any_step; [|close_with Hfail].
    any_step; [|close_with Hfail].
    any_step; [|close_with Hfail].
    match goal with |- wp (if ?b then _ else _) _ _ => destruct b end;
      [|close_with Hfail].
    apply wp_bind, wp_call. intros [[f|]|e] _; cbn beta iota;
      [|close_with Hfail|close_with Hfail].
    apply wp_collect_download.
    + intros raw now url more' Hlen. cbn beta iota.
      rewrite <- !app_assoc. apply Hok.
      repeat first [ by apply artifact_saved_base | apply artifact_saved_app_l ].
    + intros more'. close_with Hfail.
  - any_step; [|close_with Hfail].
    any_step; [|close_with Hfail].
    any_step; [|close_with Hfail].
    any_step; [|close_with Hfail].
    close_with Hfail.
Qed.

(** The page processing returns ["completed"] only after an artifact was
    saved with its metadata, ["no_export"] only when it read the page
    source and did nothing else, and ["failed"] otherwise; it never
    raises. *)
Lemma wp_process_motif_report_page v :
  wp (process_motif_report_page v) [] (classified v).
Proof.
  unfold process_motif_report_page.
  apply wp_try_catch, wp_bind, wp_call. intros [src|e] _; cbn beta iota.
  2:{ cbn. by right; right. }
  destruct (negb (has_export src)).
  { cbn. right; left. done. }
  eapply wp_mono; [|apply (wp_download_psfm v [Ev PageSource]
    (λ tr r, match r with
             | Ok s => classified v tr (Ok s)
             | Raise _ => True
             end))].
  - intros tr' [s|e] H; [exact H|]. cbn. by right; right.
  - intros new Hnew. left. split; [done|]. by apply (artifact_saved_app_l v [_]).
  - intros more. by right; right.
  - done.
Qed.

(** ** The per-family loop *)

Lemma progress_writes_browser_only tr :
  Forall browser_only tr → progress_writes tr = [].
Proof.
  induction 1 as [|[X c] tr Hc _ IH]; [done|].
  destruct c; try discriminate Hc; exact IH.
Qed.

(** The page processing always returns one of the three classifications,
    and leaves the checkpoint files alone. *)
Lemma run_classification E v cf pf tr :
  ∃ new result,
    Forall browser_only new
    ∧ run E (process_motif_report_page v) (World cf pf tr) =
        (World cf pf (tr ++ new), Ok result)
    ∧ result ∈ ["completed"; "no_export"; "failed"].
Proof.
  destruct (run_process_motif_report_page E v cf pf tr) as (new & result & Hnew & Hrun).
  exists new, result. split; [done|]. split; [done|].
  pose proof (wp_run E (process_motif_report_page v) (World cf pf tr) _
                (wp_process_motif_report_page v)) as Hclass.
  rewrite Hrun in Hclass. simpl in Hclass.
  destruct Hclass as [[[= ->] _]|[[[= ->] _]|[= ->]]].
  - by left.
  - by right; left.
  - by right; right; left.
Qed.

Lemma persisted_status_values result :
  persisted_status result ∈ ["completed"; "no_export"; "no_data"].
Proof.
  unfold persisted_status. repeat case_decide.
  - by left.
  - by right; left.
  - by right; right; left.
Qed.

Lemma recorded_status_record_motif pd tfi sp st d t1 t2 pd' :
  record_motif pd tfi sp st d t1 t2 = Ok pd' →
  recorded_status pd' (owning_family tfi d) (motif_key tfi sp) = Some st.
Proof.
  intros Hrec.
  destruct (record_motif_facts _ _ _ _ _ _ _ _ Hrec) as (reps & Hreps & Hkey & _).
  unfold recorded_status, recorded_report. rewrite Hreps. simpl.
  cbn zeta in Hkey. by rewrite Hkey.
Qed.

(** One call of the recorder by the loop. The call returns. When the
    progress file can be tested for existence and the value read can take
    the record, the file is written once, as the last operation, with that
    value, and is afterwards as the write left it; else nothing is
    written. *)
Lemma run_record_outcome E w tfi sp st d {A} (a : A) :
  ∃ t1 t2 pre w2,
    run E (_ ← save_motif_progress tfi sp st d; Ret a) w = (w2, Ok a)
    ∧ no_write pre
    ∧ match _ ← exists_ (w_progress w);
            record_motif (stored_progress w) tfi sp st d t1 t2 with
      | Ok pd =>
          w_trace w2 = w_trace w ++ pre ++ [Ev (WriteProgressFile pd)]
          ∧ w_progress w2 =
              write_file (w_progress w) pd
                (env_answer E unit (w_trace w ++ pre) (WriteProgressFile pd))
                (env_torn E (w_trace w ++ pre))
      | Raise _ => w_trace w2 = w_trace w ++ pre ∧ w_progress w2 = w_progress w
      end.
Proof.
  destruct (run_save_motif_progress E w tfi sp st d) as (t1 & t2 & pre & Hpre & Hrun).
  exists t1, t2, pre. rewrite run_bind, Hrun.
  destruct (_ ← exists_ (w_progress w); record_motif _ _ _ _ _ _ _) as [pd|e].
  - eexists. split; [done|]. split; [done|]. cbn. by rewrite <- app_assoc.
  - eexists. split; [done|]. by split.
Qed.

(** C3, as stated, fails: an item whose download fails is persisted with
    the status ["no_data"], which is none of the three classifications;
    and for an item whose report page cannot be opened nothing is written
    to the progress store, the item only enters the family results as
    ["failed"]. *)
Lemma failed_items_in_the_store :
  recorded_status
    (stored_progress
       (after site_without_download_link
          (process_view_link arac_xyls v_arac (0, [])) fresh_world))
    arac_xyls (motif_key "AraC" "Escherichia coli") = Some "no_data" ∧
  progress_writes
    (w_trace (after quiet_env (process_view_link arac_xyls v_arac (0, []))
                fresh_world)) = [] ∧
  (run quiet_env (process_view_link arac_xyls v_arac (0, [])) fresh_world).2 =
    Ok (0, [FamilyResult "AraC" "Escherichia coli" "failed"]).
Proof. vm_compute. done. Qed.

(** C3, amended. One turn of the loop over the work items always returns
    to the loop. When the report page of the item could be opened, the
    page processing ends in one of the classifications ["completed"],
    ["no_export"] and ["failed"], which is what the family results get for
    the item, and the recorder is called with the status ["completed"],
    ["no_export"] or ["no_data"] respectively, for the family of the page.
    When the progress file can be tested for existence and the value it
    holds can take the record, the turn writes the progress file exactly
    once: the value written is the value held with the item recorded under
    its family with that status, and the file is afterwards as this write
    left it. Otherwise the turn writes nothing and the file stays as it
    was. *)
Theorem item_outcome_recorded E w tf v n results :
  let turn := process_view_link tf v (n, results) in
  let w' := after E turn w in
  let tf_name := vl_tf_name v in
  let species_name := vl_species_name v in
  (∃ acc', (run E turn w).2 = Ok acc') ∧
  (env_answer E unit (w_trace w) (DriverGet (vl_href v)) = Ok () →
     ∃ result n' more d t1 t2,
       result ∈ ["completed"; "no_export"; "failed"] ∧
       persisted_status result ∈ ["completed"; "no_export"; "no_data"] ∧
       (run E turn w).2 =
         Ok (n', results ++ FamilyResult tf_name species_name result :: more) ∧
       owning_family tf_name d = tf ∧
       match _ ← exists_ (w_progress w);
             record_motif (stored_progress w) tf_name species_name
               (persisted_status result) d t1 t2 with
       | Ok written =>
           progress_writes (trace_since w w') = [written] ∧
           recorded_status written tf (motif_key tf_name species_name)
             = Some (persisted_status result) ∧
           ∃ pre post,
             trace_since w w' = pre ++ Ev (WriteProgressFile written) :: post ∧
             w_progress w' =
               write_file (w_progress w) written
                 (env_answer E unit (w_trace w ++ pre) (WriteProgressFile written))
                 (env_torn E (w_trace w ++ pre))
       | Raise _ =>
           progress_writes (trace_since w w') = [] ∧ w_progress w' = w_progress w
       end).
Proof.
  destruct w as [cf pf tr].
  unfold after, process_view_link. cbn zeta.
  rewrite run_try_catch, run_bind, run_call. cbn [perform w_trace].
  destruct (env_answer E unit tr (DriverGet (vl_href v))) as [[]|e] eqn:Hget.
  2:{ split; [eauto|done]. }
  rewrite run_bind.
  destruct (run_classification E v cf pf (tr ++ [Ev (DriverGet (vl_href v))]))
    as (new & result & Hnew & Hrun & Hresult).
  cbn [w_completed w_progress]. rewrite Hrun. rewrite run_bind.
  set (tr1 := (tr ++ [Ev (DriverGet (vl_href v))]) ++ new).
  set (w1 := World cf pf tr1).
  assert (∃ d t1 t2 pre w2 n',
    run E
      (if decide (result = "completed") then
         _ ← save_motif_progress (vl_tf_name v) (vl_species_name v) "completed"
               (Some (Details (Some tf) {["downloaded" := JBool true]}));
         Ret (S n)
       else if decide (result = "no_export") then
         _ ← save_motif_progress (vl_tf_name v) (vl_species_name v) "no_export"
               (Some (Details (Some tf) {["reason" := JStr "no export functionality"]}));
         Ret n
       else
         _ ← save_motif_progress (vl_tf_name v) (vl_species_name v) "no_data"
               (Some (Details (Some tf) {["reason" := JStr "download failed"]}));
         Ret n) w1 = (w2, Ok n')
    ∧ no_write pre
    ∧ owning_family (vl_tf_name v) d = tf
    ∧ match _ ← exists_ pf;
            record_motif (stored_progress w1) (vl_tf_name v) (vl_species_name v)
              (persisted_status result) d t1 t2 with
      | Ok pd =>
          w_trace w2 = tr1 ++ pre ++ [Ev (WriteProgressFile pd)]
          ∧ w_progress w2 =
              write_file pf pd
                (env_answer E unit (tr1 ++ pre) (WriteProgressFile pd))
                (env_torn E (tr1 ++ pre))
      | Raise _ => w_trace w2 = tr1 ++ pre ∧ w_progress w2 = pf
      end) as (d & t1 & t2 & pre & w2 & n' & Hsave & Hpre & Hfam & Houtcome).
  { unfold persisted_status.
    destruct (decide (result = "completed")); [|destruct (decide (result = "no_export"))].
    - destruct (run_record_outcome E w1 (vl_tf_name v) (vl_species_name v) "completed"
                  (Some (Details (Some tf) {["downloaded" := JBool true]})) (S n))
        as (t1 & t2 & pre & w2 & H1 & H2 & H3).
      eexists _, t1, t2, pre, w2, (S n).
      split; [exact H1|]. split; [exact H2|]. split; [|exact H3]. reflexivity.
    - destruct (run_record_outcome E w1 (vl_tf_name v) (vl_species_name v) "no_export"
                  (Some (Details (Some tf) {["reason" := JStr "no export functionality"]})) n)
        as (t1 & t2 & pre & w2 & H1 & H2 & H3).
      eexists _, t1, t2, pre, w2, n.
      split; [exact H1|]. split; [exact H2|]. split; [|exact H3]. reflexivity.
    - destruct (run_record_outcome E w1 (vl_tf_name v) (vl_species_name v) "no_data"
                  (Some (Details (Some tf) {["reason" := JStr "download failed"]})) n)
        as (t1 & t2 & pre & w2 & H1 & H2 & H3).
      eexists _, t1, t2, pre, w2, n.
      split; [exact H1|]. split; [exact H2|]. split; [|exact H3]. reflexivity. }
  rewrite Hsave. rewrite run_try_catch, run_bind, run_call.
  destruct w2 as [cf2 pf2 tr2]. cbn [perform w_trace w_completed w_progress] in *.
  assert (Hfinal : ∀ cf' r,
    match _ ← exists_ pf;
          record_motif (stored_progress w1) (vl_tf_name v) (vl_species_name v)
            (persisted_status result) d t1 t2 with
    | Ok written =>
        progress_writes
          (trace_since (World cf pf tr) (World cf' r (tr2 ++ [Ev DriverBack])))
          = [written] ∧
        recorded_status written tf (motif_key (vl_tf_name v) (vl_species_name v))
          = Some (persisted_status result) ∧
        ∃ pre post,
          trace_since (World cf pf tr) (World cf' r (tr2 ++ [Ev DriverBack]))
            = pre ++ Ev (WriteProgressFile written) :: post ∧
          pf2 = write_file pf written
                  (env_answer E unit (tr ++ pre) (WriteProgressFile written))
                  (env_torn E (tr ++ pre))
    | Raise _ =>
        progress_writes
          (trace_since (World cf pf tr) (World cf' r (tr2 ++ [Ev DriverBack])))
          = [] ∧ pf2 = pf
    end).
  { intros cf' r.
    destruct (exists_ pf) as [b|e]; cbn [mbind exc_bind] in *.
    - destruct (record_motif _ _ _ _ _ _ _) as [written|e] eqn:Hrec.
      + destruct Houtcome as [-> ->]. subst tr1.
        rewrite <- !app_assoc, trace_since_app.
        split; [|split].
        * rewrite !progress_writes_app, (progress_writes_browser_only new Hnew),
            (progress_writes_no_write pre Hpre). done.
        * rewrite <- Hfam. by apply (recorded_status_record_motif _ _ _ _ _ _ _ _ Hrec).
        * exists ([Ev (DriverGet (vl_href v))] ++ new ++ pre), [Ev DriverBack].
          split; [by rewrite <- !app_assoc|]. by rewrite !app_assoc.
      + destruct Houtcome as [-> ->]. subst tr1.
        rewrite <- !app_assoc, trace_since_app.
        rewrite !progress_writes_app, (progress_writes_browser_only new Hnew),
          (progress_writes_no_write pre Hpre). done.
    - destruct Houtcome as [-> ->]. subst tr1.
      rewrite <- !app_assoc, trace_since_app.
      rewrite !progress_writes_app, (progress_writes_browser_only new Hnew),
        (progress_writes_no_write pre Hpre). done. }
  pose proof (persisted_status_values result) as Hin.
  destruct (env_answer E unit tr2 DriverBack) as [[]|e]; cbn [run fst snd].
  - split; [eauto|]. intros _. exists result, n', [], d, t1, t2.
    repeat (split; [done|]). apply Hfinal.
  - split; [eauto|]. intros _.
    exists result, n', [FamilyResult (vl_tf_name v) (vl_species_name v) "failed"],
      d, t1, t2.
    repeat (split; [done|]). split; [by rewrite <- app_assoc|].
    split; [done|]. apply Hfinal.
Qed.

Lemma item_outcome_recorded_witness :
  ∃ result n' more d t1 t2,
    result ∈ ["completed"; "no_export"; "failed"] ∧
    persisted_status result ∈ ["completed"; "no_export"; "no_data"] ∧
    (run working_site (process_view_link arac_xyls v_arac (0, [])) fresh_world).2 =
      Ok (n', [] ++ FamilyResult "AraC" "Escherichia coli" result :: more) ∧
    owning_family "AraC" d = arac_xyls ∧
    match _ ← exists_ (w_progress fresh_world);
          record_motif (stored_progress fresh_world) "AraC" "Escherichia coli"
            (persisted_status result) d t1 t2 with
    | Ok written =>
        progress_writes (trace_since fresh_world first_run) = [written] ∧
        recorded_status written arac_xyls (motif_key "AraC" "Escherichia coli")
          = Some (persisted_status result) ∧
        ∃ pre post,
          trace_since fresh_world first_run
            = pre ++ Ev (WriteProgressFile written) :: post ∧
          w_progress first_run =
            write_file (w_progress fresh_world) written
              (env_answer working_site unit (w_trace fresh_world ++ pre)
                 (WriteProgressFile written))
              (env_torn working_site (w_trace fresh_world ++ pre))
    | Raise _ =>
        progress_writes (trace_since fresh_world first_run) = [] ∧
        w_progress first_run = w_progress fresh_world
    end.
Proof.
  apply (proj2 (item_outcome_recorded working_site fresh_world arac_xyls v_arac 0 [])).
  reflexivity.
Defined.

(** The two cases of the recorder, on the first item of AraC/XylS. On a
    fresh store the turn writes the progress file once, and the file then
    holds the item as ["completed"]. On a progress file that holds the list
    [[1, 2]] the item is downloaded and enters the family results as
    ["completed"], but the recorder swallows the exception and the turn
    writes nothing. *)
Lemma recorded_or_swallowed :
  progress_writes (trace_since fresh_world first_run) = [stored_progress first_run]
  ∧ recorded_status (stored_progress first_run) arac_xyls
      (motif_key "AraC" "Escherichia coli") = Some "completed"
  ∧ let corrupt := World Absent (Present (Ok (PList [PNum 1; PNum 2]))) [] in
    let turn := process_view_link arac_xyls v_arac (0, []) in
    (run working_site turn corrupt).2
      = Ok (1, [FamilyResult "AraC" "Escherichia coli" "completed"])
    ∧ progress_writes (w_trace (after working_site turn corrupt)) = []
    ∧ w_progress (after working_site turn corrupt) = w_progress corrupt.
Proof. vm_compute. done. Qed.

(** ** Further properties of the page processing *)



(** ** Further properties of discovery *)







(** ** Further properties of the progress store *)



(** ** Family selection *)




(** ** The family log *)



(** ** Further properties of the per-family loop *)








(** ** Further properties of the artifact names *)





